(** * code-reviewer: platform detection, remote classification and the
      text-source parser of [main.go], embedded in Rocq.

    Go strings are immutable byte sequences; they are modelled as lists of
    8-bit characters.  The functions of Go's [strings], [unicode],
    [unicode/utf8] and [strconv] packages that [main.go] calls work on
    those bytes through UTF-8 decoding, and are modelled the same way.
    [int] is 64 bits wide.

    The program talks to the outside world through three calls: running a
    command and collecting its output, listing pull requests through the
    GitHub client, and asking the user to select an item.  Their answers
    are parameters of the model; what the program does is recorded as a
    trace of events, and a computation either returns a value, leaves
    through [os.Exit], or panics. *)

From Stdlib Require Import List Ascii ZArith NArith Bool Lia.
From Stdlib Require String DecimalString DecimalPos.
Import ListNotations.
Import String.StringSyntax Ascii.AsciiSyntax.
Delimit Scope string_scope with string.

Open Scope bool_scope.
Open Scope list_scope.

Definition byte := ascii.
Definition gostring := list byte.
Definition rune := N.

(** A Go string literal. *)
Definition str (s : String.string) : gostring := String.list_ascii_of_string s.
Arguments str _%_string.

Definition val (b : byte) : N := N_of_ascii b.
Definition chr (n : N) : byte := ascii_of_N n.

(** [s == t] on strings. *)
Fixpoint eqs (s t : gostring) : bool :=
  match s, t with
  | [], [] => true
  | c :: s', d :: t' => Ascii.eqb c d && eqs s' t'
  | _, _ => false
  end.

(** ** Package [unicode/utf8] *)
Module utf8.

Definition RuneError : rune := 0xFFFD%N.
Definition RuneSelf : N := 0x80%N.
Definition MaxRune : rune := 0x10FFFF%N.
Definition UTFMax : nat := 4.

Definition inRange (lo hi b : N) : bool := ((lo <=? b) && (b <=? hi))%N.

(** The tables [first] and [acceptRanges]: for a lead byte, the length of
    the sequence it starts and the range accepted for its second byte.
    [None] stands for the entries [as] (ASCII) and [xx] (invalid). *)
Definition first (p0 : N) : option (nat * N * N) :=
  (if p0 <? 0xC2 then None
   else if p0 <? 0xE0 then Some (2%nat, 0x80, 0xBF)
   else if p0 =? 0xE0 then Some (3%nat, 0xA0, 0xBF)
   else if p0 =? 0xED then Some (3%nat, 0x80, 0x9F)
   else if p0 <? 0xF0 then Some (3%nat, 0x80, 0xBF)
   else if p0 =? 0xF0 then Some (4%nat, 0x90, 0xBF)
   else if p0 <? 0xF4 then Some (4%nat, 0x80, 0xBF)
   else if p0 =? 0xF4 then Some (4%nat, 0x80, 0x8F)
   else None)%N.

(** Continuation bytes, [locb..hicb]. *)
Definition isCont (b : N) : bool := inRange 0x80 0xBF b.

Definition RuneStart (b : byte) : bool := negb (N.land (val b) 0xC0 =? 0x80)%N.

(** [DecodeRuneInString]: the first rune of [p] and its width in bytes;
    [(RuneError, 0)] on the empty string, [(RuneError, 1)] on an invalid or
    truncated encoding. *)
Definition DecodeRune (p : gostring) : rune * nat :=
  match p with
  | [] => (RuneError, 0)
  | c0 :: p1 =>
    let p0 := val c0 in
    if (p0 <? RuneSelf)%N then (p0, 1) else
    match first p0 with
    | None => (RuneError, 1)
    | Some (sz, lo, hi) =>
      if (length p <? sz)%nat then (RuneError, 1) else
      match p1 with
      | [] => (RuneError, 1)
      | c1 :: p2 =>
        let b1 := val c1 in
        if negb (inRange lo hi b1) then (RuneError, 1) else
        if (sz <=? 2)%nat
        then (N.lor (N.shiftl (N.land p0 0x1F) 6) (N.land b1 0x3F), 2)
        else
        match p2 with
        | [] => (RuneError, 1)
        | c2 :: p3 =>
          let b2 := val c2 in
          if negb (isCont b2) then (RuneError, 1) else
          if (sz <=? 3)%nat
          then (N.lor (N.lor (N.shiftl (N.land p0 0x0F) 12)
                             (N.shiftl (N.land b1 0x3F) 6))
                      (N.land b2 0x3F), 3)
          else
          match p3 with
          | [] => (RuneError, 1)
          | c3 :: _ =>
            let b3 := val c3 in
            if negb (isCont b3) then (RuneError, 1) else
            (N.lor (N.lor (N.lor (N.shiftl (N.land p0 0x07) 18)
                                 (N.shiftl (N.land b1 0x3F) 12))
                          (N.shiftl (N.land b2 0x3F) 6))
                   (N.land b3 0x3F), 4)
          end
        end
      end
    end
  end.

(** How far [DecodeLastRuneInString] backs up from the last byte: it stops
    at the first byte that can start a rune, looking at no more than
    [UTFMax] bytes.  [before] holds the bytes preceding the last one,
    nearest first; the result is the length of the window decoded. *)
Definition lastWindow (before : gostring) : nat :=
  match before with
  | [] => 1
  | b1 :: t1 =>
    if RuneStart b1 then 2 else
    match t1 with
    | [] => 2
    | b2 :: t2 =>
      if RuneStart b2 then 3 else
      match t2 with
      | [] => 3
      | b3 :: t3 =>
        if RuneStart b3 then 4 else
        match t3 with
        | [] => 4
        | _ :: _ => 5
        end
      end
    end
  end.

Definition DecodeLastRune (p : gostring) : rune * nat :=
  match rev p with
  | [] => (RuneError, 0)
  | c :: before =>
    if (val c <? RuneSelf)%N then (val c, 1) else
    let w := lastWindow before in
    let '(r, size) := DecodeRune (skipn (length p - w) p) in
    if (size =? w)%nat then (r, size) else (RuneError, 1)
  end.

(** [AppendRune]. *)
Definition EncodeRune (r : rune) : gostring :=
  let enc3 (x : N) :=
    [chr (N.lor 0xE0 (N.shiftr x 12));
     chr (N.lor 0x80 (N.land (N.shiftr x 6) 0x3F));
     chr (N.lor 0x80 (N.land x 0x3F))] in
  (if r <=? 0x7F then [chr r]
   else if r <=? 0x7FF then
     [chr (N.lor 0xC0 (N.shiftr r 6)); chr (N.lor 0x80 (N.land r 0x3F))]
   else if (MaxRune <? r) || inRange 0xD800 0xDFFF r then enc3 RuneError
   else if r <=? 0xFFFF then enc3 r
   else
     [chr (N.lor 0xF0 (N.shiftr r 18));
      chr (N.lor 0x80 (N.land (N.shiftr r 12) 0x3F));
      chr (N.lor 0x80 (N.land (N.shiftr r 6) 0x3F));
      chr (N.lor 0x80 (N.land r 0x3F))])%N.

(** [for _, r := range s]: the runes of [s] in order, each with the bytes
    it was decoded from. *)
Fixpoint rangeLoop (fuel : nat) (s : gostring) : list (rune * gostring) :=
  match fuel, s with
  | S fuel', c :: s' =>
    let '(r, w) := DecodeRune s in
    (r, c :: firstn (w - 1) s') :: rangeLoop fuel' (skipn (w - 1) s')
  | _, _ => []
  end.

Definition Range (s : gostring) : list (rune * gostring) :=
  rangeLoop (length s) s.

Definition bytesOf (cs : list (rune * gostring)) : gostring :=
  concat (map snd cs).

End utf8.

Arguments utf8.DecodeRune : simpl never.

(** ** Package [unicode] *)
Module unicode.

Definition MaxASCII : rune := 0x7F%N.
Definition MaxLatin1 : rune := 0xFF%N.

(** The [White_Space] range table. *)
Definition White_Space : list (rune * rune) :=
  [(0x0009, 0x000d); (0x0020, 0x0020); (0x0085, 0x0085); (0x00a0, 0x00a0);
   (0x1680, 0x1680); (0x2000, 0x200a); (0x2028, 0x2029); (0x202f, 0x202f);
   (0x205f, 0x205f); (0x3000, 0x3000)]%N.

Definition Is (tab : list (rune * rune)) (r : rune) : bool :=
  existsb (fun '(lo, hi) => utf8.inRange lo hi r) tab.

Definition IsSpace (r : rune) : bool :=
  if (r <=? MaxLatin1)%N then
    (* '\t', '\n', '\v', '\f', '\r', ' ', U+0085 (NEL), U+00A0 (NBSP) *)
    existsb (N.eqb r) [0x09; 0x0A; 0x0B; 0x0C; 0x0D; 0x20; 0x85; 0xA0]%N
  else Is White_Space r.

Section CaseTables.
(** The lower-case mapping of [unicode.CaseRanges] for the runes above
    ASCII; the table belongs to Go's library. *)
Variable lowerTable : rune -> rune.

Definition ToLower (r : rune) : rune :=
  if (r <=? MaxASCII)%N then
    if utf8.inRange 0x41 0x5A r then (r + 0x20)%N else r
  else lowerTable r.
End CaseTables.

End unicode.

(** ** Package [strings] *)
Module strings.

Fixpoint HasPrefix (s prefix : gostring) {struct prefix} : bool :=
  match prefix, s with
  | [], _ => true
  | c :: prefix', d :: s' => Ascii.eqb c d && HasPrefix s' prefix'
  | _ :: _, [] => false
  end.

Definition HasSuffix (s suffix : gostring) : bool :=
  (length suffix <=? length s)%nat
  && eqs (skipn (length s - length suffix) s) suffix.

Definition TrimPrefix (s prefix : gostring) : gostring :=
  if HasPrefix s prefix then skipn (length prefix) s else s.

Definition TrimSuffix (s suffix : gostring) : gostring :=
  if HasSuffix s suffix then firstn (length s - length suffix) s else s.

(** [Index]: the offset of the first occurrence of [substr], or -1. *)
Fixpoint indexFrom (i : Z) (s substr : gostring) : Z :=
  if HasPrefix s substr then i else
  match s with
  | [] => (-1)%Z
  | _ :: s' => indexFrom (i + 1) s' substr
  end.

Definition Index (s substr : gostring) : Z := indexFrom 0 s substr.

Definition Contains (s substr : gostring) : bool := (0 <=? Index s substr)%Z.

(** [LastIndex]: the offset of the last occurrence of [substr], or -1. *)
Fixpoint lastIndexFrom (i : Z) (s substr : gostring) : Z :=
  let here := if HasPrefix s substr then i else (-1)%Z in
  match s with
  | [] => here
  | _ :: s' =>
    let later := lastIndexFrom (i + 1) s' substr in
    if (0 <=? later)%Z then later else here
  end.

Definition LastIndex (s substr : gostring) : Z := lastIndexFrom 0 s substr.

Fixpoint Join (elems : list gostring) (sep : gostring) : gostring :=
  match elems with
  | [] => []
  | [e] => e
  | e :: rest => e ++ sep ++ Join rest sep
  end.

(** The loop of [genSplit] for a non-empty separator; it stops at the
    first [Index] below zero, which happens within [length s] rounds. *)
Fixpoint splitLoop (fuel : nat) (s sep : gostring) : list gostring :=
  match fuel with
  | O => [s]
  | S fuel' =>
    let m := Index s sep in
    if (m <? 0)%Z then [s]
    else firstn (Z.to_nat m) s
         :: splitLoop fuel' (skipn (Z.to_nat m + length sep) s) sep
  end.

(** [Split] for a non-empty separator, the only kind the program passes. *)
Definition Split (s sep : gostring) : list gostring :=
  splitLoop (length s) s sep.

(** The loop of [Replace] for a non-empty [old], the only kind the program
    passes: at most [n] occurrences are replaced, all of them when [n] is
    negative. *)
Fixpoint replaceLoop (fuel n : nat) (s old new : gostring) : gostring :=
  match fuel, n with
  | S fuel', S n' =>
    let j := Index s old in
    if (j <? 0)%Z then s
    else firstn (Z.to_nat j) s ++ new
         ++ replaceLoop fuel' n' (skipn (Z.to_nat j + length old) s) old new
  | _, _ => s
  end.

Definition Replace (s old new : gostring) (n : Z) : gostring :=
  if eqs old new || (n =? 0)%Z then s else
  let count := if (n <? 0)%Z then S (length s) else Z.to_nat n in
  replaceLoop (length s) count s old new.

(** [indexFunc]: the offset of the first rune [r] with [f r = truth]. *)
Fixpoint indexLoop (cs : list (rune * gostring)) (i : nat)
         (f : rune -> bool) (truth : bool) : Z :=
  match cs with
  | [] => (-1)%Z
  | (r, bs) :: cs' =>
    if Bool.eqb (f r) truth then Z.of_nat i
    else indexLoop cs' (i + length bs) f truth
  end.

Definition indexFunc (s : gostring) (f : rune -> bool) (truth : bool) : Z :=
  indexLoop (utf8.Range s) 0 f truth.

(** [lastIndexFunc]: decodes backwards from offset [i]. *)
Fixpoint lastIndexLoop (fuel : nat) (s : gostring) (i : nat)
         (f : rune -> bool) (truth : bool) : Z :=
  match fuel with
  | O => (-1)%Z
  | S fuel' =>
    if (i =? 0)%nat then (-1)%Z else
    let '(r, size) := utf8.DecodeLastRune (firstn i s) in
    let i' := (i - size)%nat in
    if Bool.eqb (f r) truth then Z.of_nat i'
    else lastIndexLoop fuel' s i' f truth
  end.

Definition lastIndexFunc (s : gostring) (f : rune -> bool) (truth : bool) : Z :=
  lastIndexLoop (length s) s (length s) f truth.

Definition TrimLeftFunc (s : gostring) (f : rune -> bool) : gostring :=
  let i := indexFunc s f false in
  if (i =? -1)%Z then [] else skipn (Z.to_nat i) s.

Definition TrimRightFunc (s : gostring) (f : rune -> bool) : gostring :=
  let i := lastIndexFunc s f false in
  let i' :=
    if (0 <=? i)%Z
       && (utf8.RuneSelf <=? val (nth (Z.to_nat i) s zero))%N
    then (i + Z.of_nat (snd (utf8.DecodeRune (skipn (Z.to_nat i) s))))%Z
    else (i + 1)%Z in
  firstn (Z.to_nat i') s.

Definition TrimFunc (s : gostring) (f : rune -> bool) : gostring :=
  TrimRightFunc (TrimLeftFunc s f) f.

(** [TrimSpace] removes leading and trailing white space as Unicode
    defines it; its ASCII fast path computes the same slice. *)
Definition TrimSpace (s : gostring) : gostring := TrimFunc s unicode.IsSpace.

(** [FieldsFunc]: the maximal runs of runes that do not satisfy [f].
    [cur] is the field being read, if any (Go keeps its start offset). *)
Fixpoint fieldsLoop (f : rune -> bool) (cs : list (rune * gostring))
         (cur : option gostring) : list gostring :=
  match cs with
  | [] => match cur with Some t => [t] | None => [] end
  | (r, bs) :: cs' =>
    if f r then
      match cur with
      | Some t => t :: fieldsLoop f cs' None
      | None => fieldsLoop f cs' None
      end
    else
      fieldsLoop f cs' (Some (match cur with Some t => t ++ bs | None => bs end))
  end.

Definition FieldsFunc (s : gostring) (f : rune -> bool) : list gostring :=
  fieldsLoop f (utf8.Range s) None.

Definition Fields (s : gostring) : list gostring :=
  FieldsFunc s unicode.IsSpace.

(** [Map]: every rune is replaced by the encoding of its image. *)
Definition Map (mapping : rune -> rune) (s : gostring) : gostring :=
  concat (map (fun '(r, _) => utf8.EncodeRune (mapping r)) (utf8.Range s)).

Definition isASCII (s : gostring) : bool :=
  forallb (fun c => (val c <? utf8.RuneSelf)%N) s.

Definition lowerByte (c : byte) : byte :=
  if utf8.inRange 0x41 0x5A (val c) then chr (val c + 0x20) else c.

Definition ToLower (lowerTable : rune -> rune) (s : gostring) : gostring :=
  if isASCII s then map lowerByte s
  else Map (unicode.ToLower lowerTable) s.

End strings.

(** ** Package [strconv] *)
Module strconv.

Definition intSize : Z := 64.

Inductive NumError := ErrSyntax | ErrRange.

(** The loop of [ParseUint] in base 10: a byte that is no digit is a
    syntax error, a value above [uint64] a range error, whichever comes
    first. *)
Fixpoint parseUint (n : Z) (s : gostring) : Z + NumError :=
  match s with
  | [] => inl n
  | c :: s' =>
    if utf8.inRange 0x30 0x39 (val c) then
      let n1 := (n * 10 + Z.of_N (val c - 0x30))%Z in
      if (2 ^ 64 - 1 <? n1)%Z then inr ErrRange else parseUint n1 s'
    else inr ErrSyntax
  end.

(** [Atoi]: an optional sign, then decimal digits, the value within
    [int]. *)
Definition Atoi (s : gostring) : Z + NumError :=
  match s with
  | [] => inr ErrSyntax
  | c :: s' =>
    let neg := Ascii.eqb c "-" in
    let body := if neg || Ascii.eqb c "+" then s' else s in
    match body with
    | [] => inr ErrSyntax
    | _ :: _ =>
      match parseUint 0 body with
      | inr e => inr e
      | inl un =>
        let cutoff := (2 ^ (intSize - 1))%Z in
        if negb neg && (cutoff <=? un)%Z then inr ErrRange
        else if neg && (cutoff <? un)%Z then inr ErrRange
        else inl (if neg then (- un)%Z else un)
      end
    end
  end.

(** [Itoa], which is what [fmt.Sprintf("%d", n)] prints. *)
Definition Itoa (n : Z) : gostring :=
  str (DecimalString.NilZero.string_of_int (Z.to_int n)).

End strconv.

(** ** The program: [main.go] *)

(** Go's [error] values, as far as the program tells them apart. *)
Inductive error :=
| ExitError (state Stderr : gostring)
    (* *exec.ExitError: the process ran and did not succeed *)
| StartError (msg : gostring)
    (* any other error of cmd.Output(), e.g. *exec.Error *)
| NumError (num : gostring) (e : strconv.NumError)
| ClientError (msg : gostring)
| Errorf (text : gostring)
| Wrapf (text : gostring) (cause : error)
    (* fmt.Errorf with the verb %w *).

Definition nl : gostring := ["010"%char].

(** Review represents a generic Pull/Merge Request. *)
Record Review := {
  ID : Z;
  Number : Z;
  Title : gostring;
  Body : gostring;
  AuthorLogin : gostring;
  AuthorName : gostring;
  DiffURL : gostring;
  NumberGH : Z
}.

(** What the getters of [*github.PullRequest] return. *)
Record PullRequest := {
  GetID : Z;
  GetNumber : Z;
  GetTitle : gostring;
  GetBody : gostring;
  GetUserLogin : gostring;
  GetDiffURL : gostring
}.

(** Operands of the formatting calls. *)
Inductive operand := OStr (s : gostring) | OInt (n : Z) | OErr (e : error).

Inductive Color := Cyan | Yellow | Green.

(** What a run does to the outside world, in order. *)
Inductive Event :=
| Exec (name : gostring) (args : list gostring)
| PullRequestsList (token owner repo state : gostring)
| SelectRun (label : gostring) (items : list gostring)
| ColorPrint (c : Color) (text : gostring)
| Println (text : gostring)
| Printf (format : gostring) (args : list operand)
| LogPrintf (format : gostring) (args : list operand)
| LogFatalf (format : gostring) (args : list operand).

(** A computation either returns, leaves through [os.Exit], or panics. *)
Inductive outcome (A : Type) :=
| Value (a : A)
| Exited (code : Z)
| Panicked.
Arguments Value {A} a.
Arguments Exited {A} code.
Arguments Panicked {A}.

Definition M (A : Type) : Type := list Event -> outcome A * list Event.

Definition ret {A} (a : A) : M A := fun t => (Value a, t).

Definition bind {A B} (m : M A) (k : A -> M B) : M B :=
  fun t =>
    match m t with
    | (Value a, t') => k a t'
    | (Exited code, t') => (Exited code, t')
    | (Panicked, t') => (Panicked, t')
    end.

Definition emit (e : Event) : M unit := fun t => (Value tt, t ++ [e]).
Definition panic {A} : M A := fun t => (Panicked, t).
Definition exit {A} (code : Z) : M A := fun t => (Exited code, t).

Notation "x <- m ;; k" := (bind m (fun x => k))
  (at level 61, m at next level, right associativity).
Notation "' p <- m ;; k" := (bind m (fun x => let p := x in k))
  (at level 61, p pattern, m at next level, right associativity).
Notation "m ;;; k" := (bind m (fun _ => k))
  (at level 61, right associativity).

(** [log.Fatalf]: the message, then [os.Exit(1)]. *)
Definition Fatalf {A} (format : gostring) (args : list operand) : M A :=
  emit (LogFatalf format args) ;;; exit 1.

(** Indexing and slicing panic out of range. *)
Definition index {A} (l : list A) (i : Z) : option A :=
  if (i <? 0)%Z then None else nth_error l (Z.to_nat i).

Definition sliceFrom {A} (l : list A) (i : Z) : option (list A) :=
  if ((0 <=? i) && (i <=? Z.of_nat (length l)))%Z
  then Some (skipn (Z.to_nat i) l) else None.

Definition sliceTo {A} (l : list A) (i : Z) : option (list A) :=
  if ((0 <=? i) && (i <=? Z.of_nat (length l)))%Z
  then Some (firstn (Z.to_nat i) l) else None.

(** *** The text source: one line of [glab mr list] *)

Inductive lineResult :=
| Skipped                                   (* continue *)
| Warned (line : gostring) (err : error)    (* log.Printf, continue *)
| Parsed (r : Review)                       (* append *)
| LinePanic.                                (* an index out of range *)

(** The Review literal of the loop: number and title, the other fields
    are not available in the text output. *)
Definition textReview (iid : Z) (title : gostring) : Review :=
  {| ID := 0; Number := iid; Title := title; Body := [];
     AuthorLogin := []; AuthorName := []; DiffURL := []; NumberGH := 0 |}.

(** The body of the loop of [GitLabReviewer.ListReviews]. *)
Definition parseLine (line : gostring) : lineResult :=
  let line := strings.TrimSpace line in
  if eqs line [] || strings.HasPrefix line (str "Showing")
     || Bool.eqb (strings.HasPrefix line (str "!")) false
  then Skipped else
  let parts := strings.Fields line in
  if (Z.of_nat (length parts) <? 4)%Z then Skipped else
  match index parts 0 with
  | None => LinePanic
  | Some part0 =>
    let iidStr := strings.TrimPrefix part0 (str "!") in
    match strconv.Atoi iidStr with
    | inr e => Warned line (NumError iidStr e)
    | inl iid =>
      match sliceFrom parts 2 with
      | None => LinePanic
      | Some titleParts =>
        let title := strings.Join titleParts (str " ") in
        let branchStart := strings.LastIndex title (str "(") in
        let branchEnd := strings.LastIndex title (str ")") in
        if negb (branchStart =? -1)%Z && negb (branchEnd =? -1)%Z
           && (branchStart <? branchEnd)%Z
        then
          match sliceTo title branchStart with
          | None => LinePanic
          | Some before => Parsed (textReview iid (strings.TrimSpace before))
          end
        else Parsed (textReview iid title)
      end
    end
  end.

(** The loop itself: [reviews] is the slice appended to. *)
Fixpoint parseLines (lines : list gostring) (reviews : list Review)
  : M (list Review) :=
  match lines with
  | [] => ret reviews
  | line :: rest =>
    match parseLine line with
    | Skipped => parseLines rest reviews
    | Warned l e =>
      emit (LogPrintf (str "Warning: Could not parse IID from line: %s (Error: %v)")
                      [OStr l; OErr e]) ;;;
      parseLines rest reviews
    | Parsed r => parseLines rest (reviews ++ [r])
    | LinePanic => panic
    end
  end.

(** *** The remote URL *)

(** The normalisation step of [getGitRepoDetails]. *)
Definition normalizeRemote (url : gostring) : gostring :=
  if strings.HasPrefix url (str "git@") then
    let url := strings.Replace url (str ":") (str "/") 1 in
    let url := strings.TrimPrefix url (str "git@") in
    strings.TrimSuffix url (str ".git")
  else if strings.HasPrefix url (str "https://") then
    let url := strings.TrimPrefix url (str "https://") in
    strings.TrimSuffix url (str ".git")
  else url.

Definition MalformedRemoteError (url : gostring) : error :=
  Errorf (str "URL do repositório Git inválida ou inesperada: " ++ url).

(** [getGitRepoDetails] once [git config] has printed [out]; [None] where
    an index would be out of range. *)
Definition getGitRepoDetailsFrom (out : gostring)
  : option (gostring * gostring * option error) :=
  let url := strings.TrimSpace out in
  let url := normalizeRemote url in
  let parts := strings.Split url (str "/") in
  if (Z.of_nat (length parts) <? 3)%Z
  then Some ([], [], Some (MalformedRemoteError url))
  else
    match index parts 0 with
    | None => None
    | Some host =>
      if strings.Contains host (str "github.com") then
        match index parts 1, index parts 2 with
        | Some owner, Some repo => Some (owner, repo, None)
        | _, _ => None
        end
      else
        match sliceFrom parts 1 with
        | Some path => Some (strings.Join path (str "/"), [], None)
        | None => None
        end
    end.

Definition UnsupportedPlatformError : error :=
  Errorf (str "plataforma não detectada. A URL do remote não contém 'github.com' ou 'gitlab.com'").

Section Program.

(** The lower-case table of Go's [unicode] package. *)
Variable lowerTable : rune -> rune.

(** The outside world: what a command prints and how it ends, what the
    GitHub client answers and what the user selects, each as a function
    of everything that happened before. *)
Variable cmdOutput :
  list Event -> gostring -> list gostring -> gostring * option error.
Variable pullRequests :
  list Event -> gostring -> gostring -> gostring ->
  list PullRequest * option error.
Variable promptRun : list Event -> list gostring -> Z * option error.

(** [fmt.Sprintf] and the fixed text of the prompt template, before and
    after the diff. *)
Variable Sprintf : gostring -> list operand -> gostring.
Variables templateHead templateTail : gostring.

(** [exec.Command(name, args...).Output()] *)
Definition Output (name : gostring) (args : list gostring)
  : M (gostring * option error) :=
  fun t => (Value (cmdOutput t name args), t ++ [Exec name args]).

(** [err] asserted to be an [exec.ExitError], for its [Stderr] field: the
    unchecked type assertion panics on any other error.  The text of an
    [ExitError] is the state of its process, e.g. "exit status 1". *)
Definition asExitError (err : error) : M (gostring * gostring) :=
  match err with
  | ExitError state stderr => ret (state, stderr)
  | _ => panic
  end.

Definition detectPlatformFrom (out : gostring) : gostring * option error :=
  let url := strings.ToLower lowerTable out in
  if strings.Contains url (str "github.com") then (str "github", None)
  else if strings.Contains url (str "gitlab.com") then (str "gitlab", None)
  else ([], Some UnsupportedPlatformError).

Definition detectPlatform : M (gostring * option error) :=
  '(out, err) <- Output (str "git")
                   [str "config"; str "--get"; str "remote.origin.url"] ;;
  match err with
  | Some _ =>
    ret ([], Some (Errorf (str "não foi possível ler a URL do repositório. Você está em um diretório git?")))
  | None => ret (detectPlatformFrom out)
  end.

Definition getGitRepoDetails : M (gostring * gostring * option error) :=
  '(out, err) <- Output (str "git")
                   [str "config"; str "--get"; str "remote.origin.url"] ;;
  match err with
  | Some e => ret ([], [], Some e)
  | None =>
    match getGitRepoDetailsFrom out with
    | Some r => ret r
    | None => panic
    end
  end.

Definition getGitHubToken : M (gostring * option error) :=
  '(out, err) <- Output (str "gh") [str "auth"; str "token"] ;;
  match err with
  | Some _ =>
    ret ([], Some (Errorf (str "certifique-se de que você está logado com `gh auth login`")))
  | None => ret (strings.TrimSpace out, None)
  end.

(** CodeReviewer defines the interface for interacting with different
    platforms; an interface value is the method table of its receiver. *)
Record CodeReviewer := {
  ListReviews : M (list Review * option error);
  GetDiff : Z -> gostring -> M (gostring * option error);
  PlatformName : gostring;
  GetRepoPath : gostring
}.

(** **** GitHub implementation *)
Record GitHubReviewer := { client : gostring; owner : gostring; repo : gostring }.

Definition reviewOfPullRequest (pr : PullRequest) : Review :=
  {| ID := GetID pr; Number := GetNumber pr; Title := GetTitle pr;
     Body := GetBody pr; AuthorLogin := GetUserLogin pr; AuthorName := [];
     DiffURL := GetDiffURL pr; NumberGH := GetNumber pr |}.

Definition GitHub_ListReviews (g : GitHubReviewer)
  : M (list Review * option error) :=
  '(prs, err) <-
    (fun t => (Value (pullRequests t (client g) (owner g) (repo g)),
               t ++ [PullRequestsList (client g) (owner g) (repo g) (str "open")])) ;;
  match err with
  | Some e => ret ([], Some e)
  | None => ret (map reviewOfPullRequest prs, None)
  end.

(** The arguments of [gh pr diff] and [glab mr diff]. *)
Definition diffArgs (kind : gostring) (reviewNumber : Z) (repoPath : gostring)
  : list gostring :=
  [kind; str "diff"; strconv.Itoa reviewNumber; str "--repo"; repoPath].

(** The two [GetDiff] methods differ in the command they run. *)
Definition getDiffWith (tool kind : gostring) (reviewNumber : Z)
           (repoPath : gostring) : M (gostring * option error) :=
  '(out, err) <- Output tool (diffArgs kind reviewNumber repoPath) ;;
  match err with
  | Some e =>
    '(state, stderr) <- asExitError e ;;
    ret ([], Some (Wrapf (str "failed to execute `" ++ tool ++ str " " ++ kind
                          ++ str " diff`: " ++ state ++ nl
                          ++ str "Stderr: " ++ stderr) e))
  | None => ret (out, None)
  end.

Definition GitHub_GetDiff (g : GitHubReviewer) :=
  getDiffWith (str "gh") (str "pr").

Definition GitHub : GitHubReviewer -> CodeReviewer := fun g =>
  {| ListReviews := GitHub_ListReviews g;
     GetDiff := GitHub_GetDiff g;
     PlatformName := str "GitHub Pull Request";
     GetRepoPath := owner g ++ str "/" ++ repo g |}.

Definition NewGitHubReviewer : M (option CodeReviewer * option error) :=
  '(token, err) <- getGitHubToken ;;
  match err with
  | Some e => ret (None, Some e)
  | None =>
    '(owner, repo, err) <- getGitRepoDetails ;;
    match err with
    | Some e => ret (None, Some e)
    | None =>
      ret (Some (GitHub {| client := token; owner := owner; repo := repo |}),
           None)
    end
  end.

(** **** GitLab implementation *)
Record GitLabReviewer := { projectPath : gostring }.

Definition GitLab_ListReviews (g : GitLabReviewer)
  : M (list Review * option error) :=
  '(out, err) <- Output (str "glab")
                   [str "mr"; str "list"; str "--repo"; projectPath g] ;;
  match err with
  | Some e =>
    '(state, stderr) <- asExitError e ;;
    ret ([], Some (Wrapf (str "failed to execute `glab mr list`: "
                          ++ state ++ nl ++ str "Stderr: " ++ stderr) e))
  | None =>
    reviews <- parseLines (strings.Split out nl) [] ;;
    ret (reviews, None)
  end.

Definition GitLab_GetDiff (g : GitLabReviewer) :=
  getDiffWith (str "glab") (str "mr").

Definition GitLab : GitLabReviewer -> CodeReviewer := fun g =>
  {| ListReviews := GitLab_ListReviews g;
     GetDiff := GitLab_GetDiff g;
     PlatformName := str "GitLab Merge Request";
     GetRepoPath := projectPath g |}.

Definition NewGitLabReviewer : M (option CodeReviewer * option error) :=
  '(projectPath, _, err) <- getGitRepoDetails ;;
  match err with
  | Some e => ret (None, Some e)
  | None => ret (Some (GitLab {| projectPath := projectPath |}), None)
  end.

(** **** Main logic *)

Definition isGitHub (platform : gostring) : bool := eqs platform (str "github").

Definition generateAgentPrompt (review : Review)
           (diff platformName platform : gostring) : gostring :=
  let number := if isGitHub platform then NumberGH review else Number review in
  let author :=
    if isGitHub platform then AuthorLogin review else AuthorName review in
  let promptTemplate :=
    templateHead ++ str "```diff" ++ nl ++ diff ++ nl ++ str "```"
    ++ templateTail in
  Sprintf promptTemplate
    [OStr platformName; OStr platformName; OInt number; OStr (Title review);
     OStr author; OStr (Body review); OStr platformName; OStr platformName;
     OStr platformName].

(** A method call through a nil interface panics. *)
Definition method {A} (reviewer : option CodeReviewer)
           (m : CodeReviewer -> M A) : M A :=
  match reviewer with
  | Some r => m r
  | None => panic
  end.

(** [main] from the listing on. *)
Definition afterListing (platform : gostring) (reviewer : option CodeReviewer)
           (reviews : list Review) : M unit :=
  if (Z.of_nat (length reviews) =? 0)%Z then
    emit (ColorPrint Yellow (str "Nenhuma revisão aberta encontrada."))
  else
    let promptItems :=
      map (fun r =>
             let number := if isGitHub platform then NumberGH r else Number r in
             str "#" ++ strconv.Itoa number ++ str ": " ++ Title r)
          reviews in
    '(selectedIndex, err) <-
      (fun t => (Value (promptRun t promptItems),
                 t ++ [SelectRun (str "Selecione uma revisão") promptItems])) ;;
    match err with
    | Some e => emit (Printf (str "Prompt failed %v" ++ nl) [OErr e])
    | None =>
      match index reviews selectedIndex with
      | None => panic
      | Some selectedReview =>
        let number :=
          if isGitHub platform then NumberGH selectedReview
          else Number selectedReview in
        '(diff, err) <-
          method reviewer (fun r => GetDiff r number (GetRepoPath r)) ;;
        match err with
        | Some e => Fatalf (str "Erro ao obter o diff: %v") [OErr e]
        | None =>
          platformName <- method reviewer (fun r => ret (PlatformName r)) ;;
          let generatedPrompt :=
            generateAgentPrompt selectedReview diff platformName platform in
          emit (ColorPrint Green (nl ++ nl ++ str "--- Prompt para Agente de IA ---" ++ nl)) ;;;
          emit (Println generatedPrompt) ;;;
          emit (ColorPrint Green (nl ++ str "--- Fim do Prompt ---" ++ nl ++ nl))
        end
      end
    end.

Definition newReviewer (platform : gostring)
  : M (option CodeReviewer * option error) :=
  if eqs platform (str "github") then
    emit (ColorPrint Cyan (str "Plataforma GitHub detectada. Buscando Pull Requests...")) ;;;
    NewGitHubReviewer
  else if eqs platform (str "gitlab") then
    emit (ColorPrint Cyan (str "Plataforma GitLab detectada. Buscando Merge Requests...")) ;;;
    NewGitLabReviewer
  else Fatalf (str "Plataforma não suportada.") [].

Definition main : M unit :=
  emit (ColorPrint Cyan (str "Detectando plataforma...")) ;;;
  '(platform, err) <- detectPlatform ;;
  match err with
  | Some e => Fatalf (str "Erro: %v") [OErr e]
  | None =>
    '(reviewer, err) <- newReviewer platform ;;
    match err with
    | Some e =>
      Fatalf (str "Erro ao inicializar o revisor para %s: %v")
             [OStr platform; OErr e]
    | None =>
      '(reviews, err) <- method reviewer ListReviews ;;
      match err with
      | Some e => Fatalf (str "Erro ao buscar revisões: %v") [OErr e]
      | None => afterListing platform reviewer reviews
      end
    end
  end.

End Program.

(** ** Notions used to state the properties *)

(** [x] occurs in [s] as a contiguous substring. *)
Definition infix (x s : gostring) : Prop := exists a b, s = a ++ x ++ b.

(** A string whose first byte, if any, is not a UTF-8 continuation byte. *)
Definition startsRune (y : gostring) : Prop :=
  match y with
  | [] => True
  | c :: _ => utf8.isCont (val c) = false
  end.

(** The segments of [s] between the occurrences of the byte [c]. *)
Fixpoint splitByte (c : byte) (s : gostring) : list gostring :=
  match s with
  | [] => [[]]
  | d :: s' =>
    if Ascii.eqb d c then [] :: splitByte c s'
    else match splitByte c s' with
         | h :: t => (d :: h) :: t
         | [] => [[d]]
         end
  end.

(** The offset of the last occurrence of the byte [c], scanning from the
    left and remembering the latest hit. *)
Fixpoint lastPosFrom (c : byte) (i : nat) (s : gostring) (found : option nat)
  : option nat :=
  match s with
  | [] => found
  | d :: s' => lastPosFrom c (S i) s' (if Ascii.eqb d c then Some i else found)
  end.

Definition lastPos (c : byte) (s : gostring) : option nat :=
  lastPosFrom c 0 s None.

(** Trailing white space removed, [strings.TrimRightFunc(s, unicode.IsSpace)]. *)
Definition trimTrailingSpace (s : gostring) : gostring :=
  strings.TrimRightFunc s unicode.IsSpace.

(** The title as the specification words it: when the joined tail has a
    last '(' and a last ')' and the ')' comes after the '(', everything
    before that '(' with trailing white space trimmed; otherwise the tail. *)
Definition specTitle (tail : gostring) : gostring :=
  match lastPos "("%char tail, lastPos ")"%char tail with
  | Some i, Some j =>
    if (i <? j)%nat then trimTrailingSpace (firstn i tail) else tail
  | _, _ => tail
  end.

(** The Reviews that the lines produce, in listing order. *)
Definition reviewsOf (lines : list gostring) : list Review :=
  flat_map (fun line => match parseLine line with
                        | Parsed r => [r]
                        | _ => []
                        end) lines.

(** ["github.com"] occurs in [url] up to the case of ASCII letters, and
    does not occur in it as written. *)
Definition onlyMixedCase (marker url : gostring) : bool :=
  strings.Contains (map strings.lowerByte url) marker
  && negb (strings.Contains url marker).

(** The slash-separated segments of the normalised remote URL. *)
Definition segments (out : gostring) : list gostring :=
  strings.Split (normalizeRemote (strings.TrimSpace out)) (str "/").

(** Events of the selection, diff and prompt steps of a run. *)
Definition isDiffCommand (args : list gostring) : bool :=
  match args with
  | _ :: verb :: _ => eqs verb (str "diff")
  | _ => false
  end.

Definition pastListing (e : Event) : bool :=
  match e with
  | SelectRun _ _ => true
  | Println _ => true
  | Exec _ args => isDiffCommand args
  | _ => false
  end.

(** What the specification says a line yields: noise and lines of fewer
    than four tokens are skipped, an unparsable number is warned about and
    skipped, and every other line gives a Review with [specTitle]. *)
Definition lineOutcome (line : gostring) : lineResult :=
  let line := strings.TrimSpace line in
  if negb (strings.HasPrefix line (str "!")) then Skipped else
  let parts := strings.Fields line in
  if (length parts <? 4)%nat then Skipped else
  let iidStr := strings.TrimPrefix (nth 0 parts []) (str "!") in
  match strconv.Atoi iidStr with
  | inr e => Warned line (NumError iidStr e)
  | inl iid =>
    Parsed (textReview iid (specTitle (strings.Join (skipn 2 parts) (str " "))))
  end.

(** A line passes the skip checks with the number [n]: trimmed, it
    starts with the marker, it has at least four fields, and its first
    field without the marker parses as [n]. *)
Definition survives (line : gostring) (n : Z) : Prop :=
  let line := strings.TrimSpace line in
  strings.HasPrefix line (str "!") = true
  /\ 4 <= length (strings.Fields line)
  /\ strconv.Atoi (strings.TrimPrefix (nth 0 (strings.Fields line) [])
                                      (str "!")) = inl n.

(** The fields of a line from index 2 on, joined by single spaces. *)
Definition tailOf (line : gostring) : gostring :=
  strings.Join (skipn 2 (strings.Fields (strings.TrimSpace line))) (str " ").

(** The byte [c] occurs in [s], for the last time right after [pre]. *)
Definition lastAt (c : byte) (pre s : gostring) : Prop :=
  exists rest, s = pre ++ c :: rest /\ ~ In c rest.

(** The rune at the head of [s] is not white space. *)
Definition solid (s : gostring) : Prop :=
  s <> [] /\ unicode.IsSpace (fst (utf8.DecodeRune s)) = false.

(** [m] only appends events, none of them from the selection, diff or
    prompt steps, and what it returns satisfies [Q]. *)
Definition ensures {A} (m : M A) (Q : A -> Prop) : Prop :=
  forall t, exists new,
    snd (m t) = t ++ new
    /\ Forall (fun e => pastListing e = false) new
    /\ forall a, fst (m t) = Value a -> Q a.

Definition quietly {A} (m : M A) : Prop := ensures m (fun _ => True).

(** A reviewer built by [main] lists quietly. *)
Definition listsQuietly (r : option CodeReviewer * option error) : Prop :=
  match fst r with
  | Some reviewer => quietly (ListReviews reviewer)
  | None => True
  end.

(** The first and the last event of a run that finds nothing to review. *)
Definition startTrace : list Event :=
  [ColorPrint Cyan (str "Detectando plataforma...")].

Definition emptyNotice : Event :=
  ColorPrint Yellow (str "Nenhuma revisão aberta encontrada.").

(** A run to try the properties on: [git] prints a GitLab remote, every
    other command prints nothing and succeeds, no pull request is open and
    the user picks the first item. *)
Definition demoCmdOutput (_ : list Event) (name : gostring)
           (_ : list gostring) : gostring * option error :=
  if eqs name (str "git")
  then (str "https://gitlab.com/acme/team/widgets.git" ++ nl, None)
  else ([], None).

Definition demoPullRequests (_ : list Event) (_ _ _ : gostring)
  : list PullRequest * option error := ([], None).

Definition demoPromptRun (_ : list Event) (_ : list gostring)
  : Z * option error := (0%Z, None).

Definition demoMain : M unit :=
  main (fun r => r) demoCmdOutput demoPullRequests demoPromptRun
       (fun format _ => format) [] [].

Definition demoTrace : list Event := Eval vm_compute in snd (demoMain []).

(** ** Notions for the properties of the listing, the repository path
       and whole runs *)

(** The warning of the loop for a line whose number does not parse. *)
Definition parseWarning (line : gostring) (err : error) : Event :=
  LogPrintf (str "Warning: Could not parse IID from line: %s (Error: %v)")
            [OStr line; OErr err].

(** The warnings that the lines produce, in listing order. *)
Definition warningsOf (lines : list gostring) : list Event :=
  flat_map (fun line => match parseLine line with
                        | Warned l e => [parseWarning l e]
                        | _ => []
                        end) lines.

(** The command that lists the merge requests of a project. *)
Definition listCommand (g : GitLabReviewer) : Event :=
  Exec (str "glab") [str "mr"; str "list"; str "--repo"; projectPath g].

(** A byte that is white space on its own. *)
Definition asciiSpace (c : byte) : bool :=
  (val c <? utf8.RuneSelf)%N && unicode.IsSpace (val c).

(** A byte that is a character on its own and no white space. *)
Definition asciiInk (c : byte) : bool :=
  (val c <? utf8.RuneSelf)%N && negb (unicode.IsSpace (val c)).

(** Events of a run up to its listing: commands other than a diff
    command, the call of the GitHub client, notices and warnings. *)
Definition beforeSelection (e : Event) : bool :=
  match e with
  | Exec _ args => negb (isDiffCommand args)
  | PullRequestsList _ _ _ _ => true
  | ColorPrint Green _ => false
  | ColorPrint _ _ => true
  | LogPrintf _ _ => true
  | _ => false
  end.

(** The formats of the fatal messages that a run can end with. *)
Definition fatalFormats : list gostring :=
  [str "Erro: %v";
   str "Erro ao inicializar o revisor para %s: %v";
   str "Erro ao buscar revisões: %v";
   str "Erro ao obter o diff: %v"].





(** A world in which a command that fails has run and exited with a
    failure status, and in which a selection without error names one of
    the items offered. *)
Definition exitErrorsOnly
  (cmdOutput : list Event -> gostring -> list gostring -> gostring * option error)
  : Prop :=
  forall t name args out e,
    cmdOutput t name args = (out, Some e) ->
    exists state stderr, e = ExitError state stderr.

Definition selectsAnItem (promptRun : list Event -> list gostring -> Z * option error)
  : Prop :=
  forall t items i,
    items <> [] -> promptRun t items = (i, None) ->
    (0 <= i < Z.of_nat (length items))%Z.

(** The item offered for a Review. *)
Definition promptItem (platform : gostring) (r : Review) : gostring :=
  str "#" ++ strconv.Itoa (if isGitHub platform then NumberGH r else Number r)
      ++ str ": " ++ Title r.

Definition selection (items : list gostring) : Event :=
  SelectRun (str "Selecione uma revisão") items.

Definition promptOpens : Event :=
  ColorPrint Green (nl ++ nl ++ str "--- Prompt para Agente de IA ---" ++ nl).

Definition promptCloses : Event :=
  ColorPrint Green (nl ++ str "--- Fim do Prompt ---" ++ nl ++ nl).

(** The two commands of the start of a run. *)
Definition readRemote : Event :=
  Exec (str "git") [str "config"; str "--get"; str "remote.origin.url"].

Definition readToken : Event := Exec (str "gh") [str "auth"; str "token"].

(** The message of the default branch of the platform switch. *)
Definition unsupportedNotice : Event :=
  LogFatalf (str "Plataforma não suportada.") [].

Section Provenance.
Variable cmdOutput :
  list Event -> gostring -> list gostring -> gostring * option error.

(** The token is what [gh auth token] printed, trimmed. *)
Definition fromToken (token : gostring) : Prop :=
  exists t out,
    cmdOutput t (str "gh") [str "auth"; str "token"] = (out, None)
    /\ token = strings.TrimSpace out.

(** The two names are what [getGitRepoDetails] made of a remote that
    [git config] printed. *)
Definition fromRemote (a b : gostring) : Prop :=
  exists t out,
    cmdOutput t (str "git") [str "config"; str "--get"; str "remote.origin.url"]
    = (out, None)
    /\ getGitRepoDetailsFrom out = Some (a, b, None).

(** What a run does up to and including its listing. *)
Definition setupEvent (e : Event) : Prop :=
  (exists text, e = ColorPrint Cyan text)
  \/ e = readRemote
  \/ e = readToken
  \/ (exists g,
         fromToken (client g) /\ fromRemote (owner g) (repo g)
         /\ e = PullRequestsList (client g) (owner g) (repo g) (str "open"))
  \/ (exists g x, fromRemote (projectPath g) x /\ e = listCommand g)
  \/ (exists line err, e = parseWarning line err).
End Provenance.

(** The reviewer that a run lists with, the commands it runs, and where
    its Reviews and its repository path come from. *)
Definition listed
  (cmdOutput : list Event -> gostring -> list gostring -> gostring * option error)
  (pullRequests : list Event -> gostring -> gostring -> gostring ->
                  list PullRequest * option error)
  (platform : gostring) (r : CodeReviewer) (tool kind : gostring)
  (reviews : list Review) : Prop :=
  (platform = str "github" /\ tool = str "gh" /\ kind = str "pr"
   /\ exists g prs t,
        r = GitHub cmdOutput pullRequests g
        /\ fromRemote cmdOutput (owner g) (repo g)
        /\ pullRequests t (client g) (owner g) (repo g) = (prs, None)
        /\ reviews = map reviewOfPullRequest prs)
  \/ (platform = str "gitlab" /\ tool = str "glab" /\ kind = str "mr"
      /\ exists g out t x,
           r = GitLab cmdOutput g
           /\ fromRemote cmdOutput (projectPath g) x
           /\ cmdOutput t (str "glab")
                [str "mr"; str "list"; str "--repo"; projectPath g] = (out, None)
           /\ reviews = reviewsOf (strings.Split out nl)).

(** Worlds to try the properties on.  In the first, no command can be
    run with success: the directory is no git repository. *)
Definition strandedCmdOutput (_ : list Event) (_ : gostring)
           (_ : list gostring) : gostring * option error :=
  ([], Some (ExitError (str "exit status 128") (str "fatal: not a git repository"))).

Definition strandedMain : M unit :=
  main (fun r => r) strandedCmdOutput demoPullRequests demoPromptRun
       (fun format _ => format) [] [].

(** In the second, the remote is a GitLab project with two open merge
    requests, the user selects the second, and its diff is printed. *)
Definition reviewCmdOutput (_ : list Event) (name : gostring)
           (args : list gostring) : gostring * option error :=
  if eqs name (str "git")
  then (str "git@gitlab.com:acme/team/widgets.git" ++ nl, None)
  else if isDiffCommand args
  then (str "diff --git a/main.go b/main.go" ++ nl, None)
  else (str "Showing 2 open merge requests on acme/team/widgets." ++ nl ++ nl
            ++ str "!12 acme/team/widgets!12 Fix login bug (fix-login)" ++ nl
            ++ str "!15 acme/team/widgets!15 Refactor parser (refactor)" ++ nl,
        None).

Definition reviewPromptRun (_ : list Event) (_ : list gostring)
  : Z * option error := (1%Z, None).

Definition reviewMain : M unit :=
  main (fun r => r) reviewCmdOutput demoPullRequests reviewPromptRun
       (fun format _ => format) (str "Review: ") (str " :end").

Definition reviewTrace : list Event := Eval vm_compute in snd (reviewMain []).

(** In the third, the remote is a GitHub repository with one open pull
    request, which the user selects. *)
Definition hubCmdOutput (_ : list Event) (name : gostring)
           (args : list gostring) : gostring * option error :=
  if eqs name (str "git")
  then (str "https://github.com/acme/widgets.git" ++ nl, None)
  else if isDiffCommand args
  then (str "diff --git a/main.go b/main.go" ++ nl, None)
  else (str "gho_secret" ++ nl, None).

Definition hubPullRequests (_ : list Event) (_ _ _ : gostring)
  : list PullRequest * option error :=
  ([{| GetID := 1001; GetNumber := 7; GetTitle := str "Add feature";
       GetBody := str "Adds it."; GetUserLogin := str "octocat";
       GetDiffURL := str "https://github.com/acme/widgets/pull/7.diff" |}],
   None).

Definition hubMain : M unit :=
  main (fun r => r) hubCmdOutput hubPullRequests demoPromptRun
       (fun format _ => format) (str "Review: ") (str " :end").

Definition hubTrace : list Event := Eval vm_compute in snd (hubMain []).

(** ** Tactics *)

(** [settle b v] replaces the comparison [b] by the boolean [v] that
    linear arithmetic gives it. *)
Ltac comparison_spec :=
  first [ apply Z.ltb_lt | apply Z.ltb_ge | apply Z.leb_le | apply Z.leb_gt
        | apply Z.eqb_eq | apply Z.eqb_neq
        | apply N.ltb_lt | apply N.ltb_ge | apply N.leb_le | apply N.leb_gt
        | apply Nat.ltb_lt | apply Nat.ltb_ge
        | apply Nat.leb_le | apply Nat.leb_gt ].

Tactic Notation "settle" constr(b) constr(v) :=
  replace b with v by (symmetry; comparison_spec; cbn [length]; lia).

Tactic Notation "settle" constr(b) constr(v) "in" hyp(H) :=
  replace b with v in H by (symmetry; comparison_spec; cbn [length]; lia).

(** Case analysis on every test of the goal. *)
Ltac split_tests :=
  repeat match goal with
         | |- context [if ?b then _ else _] => destruct b
         | |- context [match ?x with inl _ => _ | inr _ => _ end] => destruct x
         end.

(** [setup_list] proves that the events listed satisfy a predicate that
    holds of each by assumption; [same_trace] proves two traces equal up
    to the grouping of their parts. *)
Ltac setup_list :=
  repeat (apply Forall_cons; [assumption|]);
  try apply Forall_nil; try assumption.

Ltac same_trace :=
  rewrite <- ?app_assoc; cbn [app]; rewrite <- ?app_assoc; cbn [app];
  reflexivity.

(** * Properties of the UTF-8 decoder *)
Module utf8_facts.
Import utf8.

Lemma first_shape p0 sz lo hi :
  first p0 = Some (sz, lo, hi) ->
  (sz = 2 \/ sz = 3 \/ sz = 4) /\ (0x80 <= lo)%N /\ (hi <= 0xBF)%N.
Proof.
  unfold first.
  split_tests; intro H; inversion H; subst; repeat split; auto; lia.
Qed.

Lemma accepted_isCont p0 sz lo hi b :
  first p0 = Some (sz, lo, hi) -> inRange lo hi b = true -> isCont b = true.
Proof.
  intros Hf Hr. apply first_shape in Hf as (_ & Hlo & Hhi).
  unfold isCont, inRange in *.
  apply andb_true_iff in Hr as [H1 H2].
  apply N.leb_le in H1, H2.
  apply andb_true_iff; split; apply N.leb_le; lia.
Qed.

Lemma DecodeRune_width p :
  p <> [] -> 1 <= snd (DecodeRune p) <= length p.
Proof.
  destruct p as [|c0 p1]; [congruence|intros _].
  unfold DecodeRune.
  destruct (val c0 <? RuneSelf)%N; [simpl; lia|].
  destruct (first (val c0)) as [[[sz lo] hi]|] eqn:Hf; [|simpl; lia].
  apply first_shape in Hf as (Hsz & _).
  destruct (length (c0 :: p1) <? sz)%nat eqn:Hlen; [simpl; lia|].
  apply Nat.ltb_ge in Hlen.
  destruct p1 as [|c1 p2]; [simpl; lia|].
  destruct (negb (inRange lo hi (val c1))); [simpl; lia|].
  destruct (sz <=? 2)%nat eqn:H2; [simpl; lia|].
  destruct p2 as [|c2 p3]; [simpl; lia|].
  destruct (negb (isCont (val c2))); [simpl; lia|].
  destruct (sz <=? 3)%nat eqn:H3; [simpl; lia|].
  destruct p3 as [|c3 p4]; [simpl; lia|].
  destruct (negb (isCont (val c3))); simpl; lia.
Qed.

(** Appending bytes that start a new rune does not change what the head
    of a non-empty string decodes to. *)
Lemma DecodeRune_app p y :
  p <> [] -> startsRune y -> DecodeRune (p ++ y) = DecodeRune p.
Proof.
  destruct p as [|c0 p1]; [congruence|intros _ Hy].
  change ((c0 :: p1) ++ y) with (c0 :: (p1 ++ y)).
  unfold DecodeRune.
  destruct (val c0 <? RuneSelf)%N; [reflexivity|].
  destruct (first (val c0)) as [[[sz lo] hi]|] eqn:Hf; [|reflexivity].
  pose proof (fun b => accepted_isCont _ _ _ _ b Hf) as Hacc.
  apply first_shape in Hf as (Hsz & _).
  assert (Hy' : forall c y', y = c :: y' -> inRange lo hi (val c) = false).
  { intros c y' ->. simpl in Hy.
    destruct (inRange lo hi (val c)) eqn:E; [|reflexivity].
    apply Hacc in E. congruence. }
  assert (Hy'' : forall c y', y = c :: y' -> isCont (val c) = false).
  { intros c y' ->. exact Hy. }
  destruct Hsz as [-> | [-> | ->]];
    destruct p1 as [|c1 [|c2 [|c3 p4]]]; destruct y as [|d y']; simpl;
      try reflexivity;
      try rewrite (Hy' _ _ eq_refl); try rewrite (Hy'' _ _ eq_refl);
      simpl; try reflexivity;
      repeat match goal with
             | |- context [if ?b then _ else _] => destruct b
             end; try reflexivity.
Qed.

Lemma rangeLoop_S fuel c s :
  rangeLoop (S fuel) (c :: s) =
  (fst (DecodeRune (c :: s)), c :: firstn (snd (DecodeRune (c :: s)) - 1) s)
    :: rangeLoop fuel (skipn (snd (DecodeRune (c :: s)) - 1) s).
Proof.
  cbn [rangeLoop]. destruct (DecodeRune (c :: s)); reflexivity.
Qed.

Lemma rangeLoop_fuel f1 : forall f2 s,
  length s <= f1 -> length s <= f2 -> rangeLoop f1 s = rangeLoop f2 s.
Proof.
  induction f1 as [|f1 IH]; intros f2 s H1 H2.
  - destruct s; [|simpl in H1; lia]. destruct f2; reflexivity.
  - destruct s as [|c s']; [destruct f2; reflexivity|].
    destruct f2 as [|f2]; [simpl in H2; lia|].
    rewrite !rangeLoop_S. f_equal. simpl in H1, H2.
    apply IH; rewrite length_skipn; lia.
Qed.

Lemma Range_nil : Range [] = [].
Proof. reflexivity. Qed.

Lemma Range_cons c s :
  Range (c :: s) =
  (fst (DecodeRune (c :: s)), c :: firstn (snd (DecodeRune (c :: s)) - 1) s)
    :: Range (skipn (snd (DecodeRune (c :: s)) - 1) s).
Proof.
  unfold Range. simpl length. rewrite rangeLoop_S.
  f_equal. apply rangeLoop_fuel; rewrite length_skipn; lia.
Qed.

Lemma Range_ascii c s :
  (val c <? RuneSelf)%N = true -> Range (c :: s) = (val c, [c]) :: Range s.
Proof.
  intro H. rewrite Range_cons. unfold DecodeRune. rewrite H. reflexivity.
Qed.

Lemma Range_app p : forall y,
  startsRune y -> Range (p ++ y) = Range p ++ Range y.
Proof.
  remember (length p) as n eqn:Hn. revert p Hn.
  induction n as [n IH] using lt_wf_ind. intros p Hn y Hy.
  destruct p as [|c p']; [reflexivity|].
  change ((c :: p') ++ y) with (c :: (p' ++ y)).
  rewrite !Range_cons.
  change (c :: (p' ++ y)) with ((c :: p') ++ y).
  rewrite DecodeRune_app by (assumption || congruence).
  pose proof (DecodeRune_width (c :: p') ltac:(congruence)) as Hw.
  destruct (DecodeRune (c :: p')) as [r w]. simpl fst in *; simpl snd in *.
  simpl length in Hw.
  rewrite firstn_app, skipn_app.
  replace (w - 1 - length p') with 0 by lia.
  simpl firstn at 2. simpl skipn at 2. rewrite app_nil_r.
  simpl app. f_equal.
  apply (IH (length (skipn (w - 1) p'))); auto.
  subst n. rewrite length_skipn. simpl. lia.
Qed.

Lemma bytesOf_Range s : bytesOf (Range s) = s.
Proof.
  remember (length s) as n eqn:Hn. revert s Hn.
  induction n as [n IH] using lt_wf_ind. intros s Hn.
  destruct s as [|c s']; [reflexivity|].
  rewrite Range_cons. unfold bytesOf in *. simpl.
  rewrite (IH (length (skipn (snd (DecodeRune (c :: s')) - 1) s'))); auto.
  - f_equal. apply firstn_skipn.
  - subst n. rewrite length_skipn. simpl. lia.
Qed.

(** Decoding backwards consumes at least one byte, and no more than the
    string holds. *)
Lemma lastWindow_bounds before :
  1 <= lastWindow before <= S (length before).
Proof.
  unfold lastWindow.
  destruct before as [|b1 [|b2 [|b3 [|b4 t]]]]; simpl;
    split_tests; lia.
Qed.

Lemma DecodeLastRune_width p :
  p <> [] -> 1 <= snd (DecodeLastRune p) <= length p.
Proof.
  intro Hp. unfold DecodeLastRune.
  destruct (rev p) as [|c before] eqn:Hrev.
  - apply (f_equal (@rev byte)) in Hrev. rewrite rev_involutive in Hrev.
    contradiction.
  - assert (Hlen : length p = S (length before)).
    { rewrite <- length_rev, Hrev. reflexivity. }
    destruct (val c <? RuneSelf)%N; [simpl; lia|].
    pose proof (lastWindow_bounds before) as Hw.
    destruct (DecodeRune _) as [r size].
    destruct (size =? lastWindow before) eqn:E; [|simpl; lia].
    apply Nat.eqb_eq in E. simpl. lia.
Qed.

End utf8_facts.

(** * Properties of the [strings] functions *)
Module strings_facts.
Import strings.

Lemma eqs_spec s : forall t, eqs s t = true <-> s = t.
Proof.
  induction s as [|c s IH]; intros [|d t]; simpl; split; intro H;
    try discriminate; try reflexivity.
  - apply andb_true_iff in H as [H1 H2].
    apply Ascii.eqb_eq in H1. apply IH in H2. congruence.
  - inversion H; subst. apply andb_true_iff; split.
    + apply Ascii.eqb_refl.
    + apply IH; reflexivity.
Qed.

Lemma eqs_refl s : eqs s s = true.
Proof. apply eqs_spec; reflexivity. Qed.

Lemma HasPrefix_spec p : forall s,
  HasPrefix s p = true <-> exists r, s = p ++ r.
Proof.
  induction p as [|c p IH]; intros s; simpl.
  - split; [intros _; exists s; reflexivity | reflexivity].
  - destruct s as [|d s].
    + split; [discriminate | intros [r H]; discriminate].
    + split.
      * intro H. apply andb_true_iff in H as [H1 H2].
        apply Ascii.eqb_eq in H1. apply IH in H2 as [r ->].
        exists r. congruence.
      * intros [r H]. inversion H; subst.
        apply andb_true_iff; split; [apply Ascii.eqb_refl|].
        apply IH. exists r; reflexivity.
Qed.

Lemma HasPrefix_app p r : HasPrefix (p ++ r) p = true.
Proof. apply HasPrefix_spec. exists r; reflexivity. Qed.

(** ** [infix] *)

Lemma infix_refl s : infix s s.
Proof. exists [], []. rewrite app_nil_r. reflexivity. Qed.

Lemma infix_trans x y z : infix x y -> infix y z -> infix x z.
Proof.
  intros (a & b & ->) (a' & b' & ->).
  exists (a' ++ a), (b ++ b'). rewrite <- !app_assoc. reflexivity.
Qed.

Lemma infix_nil s : infix [] s.
Proof. exists [], s. reflexivity. Qed.

Lemma infix_firstn n s : infix (firstn n s) s.
Proof.
  exists [], (skipn n s). simpl. symmetry. apply firstn_skipn.
Qed.

Lemma infix_skipn n s : infix (skipn n s) s.
Proof.
  exists (firstn n s), []. rewrite app_nil_r. symmetry. apply firstn_skipn.
Qed.

Lemma infix_app_l x a b : infix x a -> infix x (a ++ b).
Proof.
  intros (u & v & ->). exists u, (v ++ b). rewrite <- !app_assoc. reflexivity.
Qed.

Lemma infix_app_r x a b : infix x b -> infix x (a ++ b).
Proof.
  intros (u & v & ->). exists (a ++ u), v. rewrite <- !app_assoc. reflexivity.
Qed.

(** A substring that avoids the byte [c] lies on one side of it. *)
Lemma infix_avoid (x a : gostring) (c : byte) (b : gostring) :
  infix x (a ++ c :: b) -> ~ In c x -> infix x a \/ infix x b.
Proof.
  intros (u & v & H) Hc.
  apply app_eq_app in H as [l [[H1 H2] | [H1 H2]]].
  - (* a = u ++ l, x ++ v = l ++ c :: b *)
    symmetry in H2. apply app_eq_app in H2 as [l' [[H3 H4] | [H3 H4]]].
    + (* l = x ++ l' *)
      left. subst. exists u, l'. reflexivity.
    + (* x = l ++ l', c :: b = l' ++ v *)
      destruct l' as [|d l'].
      * left. subst. exists u, []. rewrite !app_nil_r. reflexivity.
      * simpl in H4. inversion H4; subst.
        exfalso. apply Hc. apply in_or_app. right. left. reflexivity.
  - (* u = a ++ l, c :: b = l ++ x ++ v *)
    destruct l as [|d l].
    + simpl in H2. destruct x as [|d x].
      * left. apply infix_nil.
      * inversion H2; subst. exfalso. apply Hc. left; reflexivity.
    + simpl in H2. inversion H2; subst. right. exists l, v. reflexivity.
Qed.

(** ** [Index] and [Contains] *)

Lemma indexFrom_cases p s : forall i,
  (indexFrom i s p = (-1)%Z /\ indexFrom 0 s p = (-1)%Z)
  \/ ((0 <= indexFrom 0 s p)%Z /\ indexFrom i s p = (i + indexFrom 0 s p)%Z).
Proof.
  induction s as [|d s IH]; intros i; simpl.
  - destruct (HasPrefix [] p); [right | left]; split; lia.
  - destruct (HasPrefix (d :: s) p); [right; split; lia|].
    destruct (IH (i + 1)%Z) as [[H1 H2] | [H1 H2]];
      destruct (IH 1%Z) as [[H3 H4] | [H3 H4]]; lia.
Qed.

Lemma Index_range s p : (-1 <= Index s p)%Z.
Proof.
  unfold Index. destruct (indexFrom_cases p s 0) as [[H _] | [H _]]; lia.
Qed.

Lemma Contains_spec s p : Contains s p = true <-> infix p s.
Proof.
  unfold Contains, Index. rewrite Z.leb_le. split.
  - induction s as [|d s IH]; simpl.
    + destruct (HasPrefix [] p) eqn:E; [|lia].
      intros _. apply HasPrefix_spec in E as [r ->].
      exists [], r. reflexivity.
    + destruct (HasPrefix (d :: s) p) eqn:E.
      * intros _. apply HasPrefix_spec in E as [r ->].
        exists [], r. reflexivity.
      * intro H.
        destruct (indexFrom_cases p s 1) as [[H1 H2] | [H1 H2]]; [lia|].
        destruct (IH H1) as (a & b & ->). exists (d :: a), b. reflexivity.
  - intros (a & b & ->). induction a as [|d a IH]; simpl.
    + fold (app p b).
      destruct (p ++ b) eqn:E; simpl;
        rewrite <- ?E;
        (destruct p; [simpl; lia|]);
        try (rewrite HasPrefix_app; lia); discriminate.
    + destruct (HasPrefix (d :: a ++ p ++ b) p); [lia|].
      destruct (indexFrom_cases p (a ++ p ++ b) 1) as [[H1 H2] | [H1 H2]]; lia.
Qed.

Lemma Contains_false s p : Contains s p = false <-> ~ infix p s.
Proof.
  rewrite <- Contains_spec. destruct (Contains s p); split; intros; congruence.
Qed.

Lemma Contains_infix x s t :
  infix s t -> Contains s x = true -> Contains t x = true.
Proof.
  rewrite !Contains_spec. intros. eapply infix_trans; eassumption.
Qed.

(** ** Single-byte patterns *)

Lemma byte_split (c : byte) (s : gostring) :
  ~ In c s \/ exists a b, s = a ++ c :: b /\ ~ In c a.
Proof.
  induction s as [|d s IH].
  - left. intros [].
  - destruct (ascii_dec d c) as [-> | Hne].
    + right. exists [], s. split; [reflexivity | intros []].
    + destruct IH as [IH | (a & b & -> & Ha)].
      * left. intros [H | H]; auto.
      * right. exists (d :: a), b. split; [reflexivity|].
        intros [H | H]; auto.
Qed.

Lemma Index_byte_absent (c : byte) (s : gostring) : ~ In c s -> Index s [c] = (-1)%Z.
Proof.
  unfold Index. induction s as [|d s IH]; intro H; simpl; [reflexivity|].
  destruct (Ascii.eqb c d) eqn:E.
  - apply Ascii.eqb_eq in E. subst. exfalso. apply H. left; reflexivity.
  - simpl. destruct (indexFrom_cases [c] s 1) as [[H1 H2] | [H1 H2]]; [lia|].
    rewrite IH in H1; [lia|]. intro; apply H; right; assumption.
Qed.

Lemma Index_byte_first (c : byte) (a b : gostring) :
  ~ In c a -> Index (a ++ c :: b) [c] = Z.of_nat (length a).
Proof.
  unfold Index. induction a as [|d a IH]; intro H.
  - simpl. rewrite Ascii.eqb_refl. reflexivity.
  - simpl app. simpl indexFrom.
    destruct (Ascii.eqb c d) eqn:E.
    + apply Ascii.eqb_eq in E. subst. exfalso. apply H. left; reflexivity.
    + simpl andb. cbv iota.
      destruct (indexFrom_cases [c] (a ++ c :: b) 1) as [[H1 H2] | [H1 H2]].
      * rewrite IH in H2; [lia|]. intro; apply H; right; assumption.
      * rewrite H2, IH; [simpl length; lia|].
        intro; apply H; right; assumption.
Qed.

Lemma firstn_length_app {A} (a b : list A) : firstn (length a) (a ++ b) = a.
Proof.
  rewrite firstn_app, Nat.sub_diag, firstn_all. simpl. apply app_nil_r.
Qed.

Lemma skipn_length_app {A} (a b : list A) k :
  skipn (length a + k) (a ++ b) = skipn k b.
Proof.
  rewrite skipn_app. rewrite skipn_all2 by lia. simpl. f_equal. lia.
Qed.

(** [Split] on a one-byte separator yields the segments between its
    occurrences. *)
Lemma splitByte_absent (c : byte) (s : gostring) : ~ In c s -> splitByte c s = [s].
Proof.
  induction s as [|d s IH]; intro H; simpl; [reflexivity|].
  destruct (Ascii.eqb d c) eqn:E.
  - apply Ascii.eqb_eq in E. subst. exfalso; apply H; left; reflexivity.
  - rewrite IH; [reflexivity|]. intro; apply H; right; assumption.
Qed.

Lemma splitByte_first (c : byte) (a b : gostring) :
  ~ In c a -> splitByte c (a ++ c :: b) = a :: splitByte c b.
Proof.
  induction a as [|d a IH]; intro H; simpl.
  - rewrite Ascii.eqb_refl. reflexivity.
  - destruct (Ascii.eqb d c) eqn:E.
    + apply Ascii.eqb_eq in E. subst. exfalso; apply H; left; reflexivity.
    + rewrite IH; [reflexivity|]. intro; apply H; right; assumption.
Qed.

Lemma splitLoop_byte c fuel : forall s,
  length s <= fuel -> splitLoop fuel s [c] = splitByte c s.
Proof.
  induction fuel as [|fuel IH]; intros s Hlen.
  - destruct s; [reflexivity | simpl in Hlen; lia].
  - simpl splitLoop.
    destruct (byte_split c s) as [Hc | (a & b & -> & Ha)].
    + rewrite Index_byte_absent, splitByte_absent by assumption.
      reflexivity.
    + rewrite Index_byte_first, splitByte_first by assumption.
      settle (Z.of_nat (length a) <? 0)%Z false.
      rewrite Nat2Z.id, firstn_length_app. simpl length.
      rewrite skipn_length_app. simpl skipn.
      rewrite IH; [reflexivity|].
      rewrite length_app in Hlen. simpl in Hlen. lia.
Qed.

Lemma Split_byte c s : Split s [c] = splitByte c s.
Proof. unfold Split. apply splitLoop_byte. lia. Qed.

Lemma splitByte_nonempty c s : splitByte c s <> [].
Proof.
  destruct s as [|d s]; simpl; [discriminate|].
  destruct (Ascii.eqb d c); [discriminate|].
  destruct (splitByte c s); discriminate.
Qed.

Lemma splitByte_app c x y :
  splitByte c (x ++ c :: y) = splitByte c x ++ splitByte c y.
Proof.
  induction x as [|d x IH]; simpl.
  - rewrite Ascii.eqb_refl. reflexivity.
  - destruct (Ascii.eqb d c); [rewrite IH; reflexivity|].
    rewrite IH. pose proof (splitByte_nonempty c x).
    destruct (splitByte c x); [congruence | reflexivity].
Qed.

Lemma splitByte_length c s :
  length (splitByte c s) = S (count_occ ascii_dec s c).
Proof.
  induction s as [|d s IH]; simpl; [reflexivity|].
  destruct (ascii_dec d c) as [-> | Hne].
  - rewrite Ascii.eqb_refl. simpl. congruence.
  - apply Ascii.eqb_neq in Hne. rewrite Hne.
    pose proof (splitByte_nonempty c s).
    destruct (splitByte c s); [congruence | exact IH].
Qed.

(** The first segment is a prefix free of the separator. *)
Lemma splitByte_head c s h t :
  splitByte c s = h :: t -> (exists r, s = h ++ r) /\ ~ In c h.
Proof.
  revert h t. induction s as [|d s IH]; intros h t; simpl.
  - intro H; inversion H; subst. split; [exists []; reflexivity | intros []].
  - destruct (Ascii.eqb d c) eqn:E.
    + intro H; inversion H; subst. split; [exists (d :: s); reflexivity | intros []].
    + destruct (splitByte c s) as [|h' t'] eqn:Hs.
      * exfalso. eapply splitByte_nonempty; eassumption.
      * intro H; inversion H; subst.
        destruct (IH h' t eq_refl) as [[r ->] Hh].
        split; [exists r; reflexivity|].
        intros [Hd | Hd]; [|auto].
        apply Ascii.eqb_neq in E. congruence.
Qed.

(** [Replace] of the first occurrence of a byte. *)
Lemma Replace_byte_first (c : byte) (new a b : gostring) :
  eqs [c] new = false -> ~ In c a ->
  Replace (a ++ c :: b) [c] new 1 = a ++ new ++ b.
Proof.
  intros Hne Ha. unfold Replace. rewrite Hne. simpl orb. cbv iota.
  rewrite length_app. simpl length.
  replace (length a + S (length b)) with (S (length a + length b)) by lia.
  simpl replaceLoop.
  rewrite Index_byte_first by assumption.
  settle (Z.of_nat (length a) <? 0)%Z false.
  rewrite Nat2Z.id, firstn_length_app, skipn_length_app. simpl skipn.
  destruct (length a + length b); reflexivity.
Qed.

Lemma Replace_byte_absent (c : byte) (new s : gostring) n :
  ~ In c s -> Replace s [c] new n = s.
Proof.
  intro Hs. unfold Replace.
  destruct (eqs [c] new || (n =? 0)%Z); [reflexivity|].
  destruct (length s) as [|k]; [reflexivity|].
  destruct (if (n <? 0)%Z then _ else _); [reflexivity|].
  simpl. rewrite Index_byte_absent by assumption. reflexivity.
Qed.

(** The backward loop of [lastIndexFunc] ends within [i] rounds. *)
Lemma lastIndexLoop_fuel s f truth f1 : forall f2 i,
  i <= length s -> i <= f1 -> i <= f2 ->
  lastIndexLoop f1 s i f truth = lastIndexLoop f2 s i f truth.
Proof.
  induction f1 as [|f1 IH]; intros f2 i Hs H1 H2.
  - assert (i = 0) by lia. subst i. destruct f2; reflexivity.
  - destruct f2 as [|f2].
    + assert (i = 0) by lia. subst i. reflexivity.
    + cbn [lastIndexLoop]. destruct (i =? 0) eqn:Hi; [reflexivity|].
      apply Nat.eqb_neq in Hi.
      assert (Hne : firstn i s <> []).
      { destruct s; [simpl in Hs; lia|]. destruct i; [lia | discriminate]. }
      pose proof (utf8_facts.DecodeLastRune_width _ Hne) as Hw.
      destruct (utf8.DecodeLastRune (firstn i s)) as [r size].
      simpl in Hw. destruct (Bool.eqb (f r) truth); [reflexivity|].
      apply IH; lia.
Qed.

(** [LastIndex] of a byte agrees with [lastPos]. *)
Lemma lastIndexFrom_lastPosFrom c s : forall i found,
  (lastIndexFrom (Z.of_nat i) s [c] = (-1)%Z
   /\ lastPosFrom c i s found = found)
  \/ exists j, i <= j
       /\ lastIndexFrom (Z.of_nat i) s [c] = Z.of_nat j
       /\ lastPosFrom c i s found = Some j.
Proof.
  induction s as [|d s IH]; intros i found.
  - left. split; reflexivity.
  - cbn [lastIndexFrom lastPosFrom HasPrefix].
    replace (Z.of_nat i + 1)%Z with (Z.of_nat (S i)) by lia.
    rewrite andb_true_r, (Ascii.eqb_sym c d).
    destruct (IH (S i) (if Ascii.eqb d c then Some i else found))
      as [[H1 H2] | (j & Hj & H1 & H2)].
    + rewrite H1, H2. simpl.
      destruct (Ascii.eqb d c).
      * right. exists i. repeat split; auto.
      * left. split; reflexivity.
    + rewrite H1, H2.
      settle (0 <=? Z.of_nat j)%Z true.
      right. exists j. repeat split; auto. lia.
Qed.

Lemma LastIndex_byte c s :
  LastIndex s [c] = match lastPos c s with
                    | Some j => Z.of_nat j
                    | None => (-1)%Z
                    end.
Proof.
  unfold LastIndex, lastPos.
  destruct (lastIndexFrom_lastPosFrom c s 0 None) as [[H1 H2] | (j & _ & H1 & H2)];
    simpl Z.of_nat in H1; rewrite H1, H2; reflexivity.
Qed.

Lemma lastPosFrom_spec c s : forall i found j,
  lastPosFrom c i s found = Some j ->
  (found = Some j /\ ~ In c s)
  \/ exists pre rest, s = pre ++ c :: rest /\ j = i + length pre /\ ~ In c rest.
Proof.
  induction s as [|d s IH]; intros i found j; simpl.
  - intros ->. left. split; [reflexivity | intros []].
  - intro H. apply IH in H as [[H1 H2] | (pre & rest & -> & Hj & Hr)].
    + destruct (Ascii.eqb d c) eqn:E.
      * apply Ascii.eqb_eq in E. subst d. inversion H1; subst.
        right. exists [], s. repeat split; auto; simpl; lia.
      * left. split; [assumption|].
        apply Ascii.eqb_neq in E. intros [H | H]; auto.
    + right. exists (d :: pre), rest. repeat split; auto; simpl; lia.
Qed.

Lemma lastPos_Some c s j :
  lastPos c s = Some j ->
  exists pre rest, s = pre ++ c :: rest /\ j = length pre /\ ~ In c rest.
Proof.
  intro H. apply lastPosFrom_spec in H as [[H _] | H]; [discriminate|].
  exact H.
Qed.

Lemma lastPos_last (c : byte) (pre rest : gostring) :
  ~ In c rest -> lastPos c (pre ++ c :: rest) = Some (length pre).
Proof.
  intro Hr. unfold lastPos.
  assert (G : forall pre i found,
             lastPosFrom c i (pre ++ c :: rest) found = Some (i + length pre)).
  { clear pre. induction pre as [|d pre IH]; intros i found; simpl.
    - rewrite Ascii.eqb_refl. rewrite Nat.add_0_r.
      clear found. generalize (S i) as k. revert Hr.
      induction rest as [|e rest IHr]; intros Hr k; simpl; [reflexivity|].
      destruct (Ascii.eqb e c) eqn:E.
      + apply Ascii.eqb_eq in E. subst. exfalso; apply Hr; left; reflexivity.
      + apply IHr. intro; apply Hr; right; assumption.
    - rewrite IH. f_equal. lia. }
  apply (G pre 0 None).
Qed.

Lemma lastPos_absent (c : byte) (s : gostring) :
  ~ In c s -> lastPos c s = None.
Proof.
  unfold lastPos. generalize 0. induction s as [|d s IH]; intros i H; simpl.
  - reflexivity.
  - destruct (Ascii.eqb d c) eqn:E.
    + apply Ascii.eqb_eq in E. subst. exfalso; apply H; left; reflexivity.
    + apply IH. intro; apply H; right; assumption.
Qed.

Lemma lastAt_lastPos (c : byte) (pre s : gostring) :
  lastAt c pre s -> lastPos c s = Some (length pre).
Proof.
  intros (rest & -> & Hrest). apply lastPos_last. exact Hrest.
Qed.

Lemma lastAt_firstn (c : byte) (pre s : gostring) :
  lastAt c pre s -> firstn (length pre) s = pre.
Proof.
  intros (rest & -> & _). apply firstn_length_app.
Qed.

(** *** [specTitle] by cases *)

Lemma specTitle_cut tail opening closing :
  lastAt "("%char opening tail -> lastAt ")"%char closing tail ->
  length opening < length closing ->
  specTitle tail = trimTrailingSpace opening.
Proof.
  intros Ho Hc Hlt. unfold specTitle.
  rewrite (lastAt_lastPos _ _ _ Ho), (lastAt_lastPos _ _ _ Hc).
  replace (length opening <? length closing) with true
    by (symmetry; apply Nat.ltb_lt; exact Hlt).
  rewrite (lastAt_firstn _ _ _ Ho). reflexivity.
Qed.

Lemma specTitle_keep tail :
  ~ In "("%char tail \/ ~ In ")"%char tail
  \/ (exists opening closing,
         lastAt "("%char opening tail /\ lastAt ")"%char closing tail
         /\ length closing < length opening) ->
  specTitle tail = tail.
Proof.
  unfold specTitle. intros [H | [H | (opening & closing & Ho & Hc & Hlt)]].
  - rewrite (lastPos_absent _ _ H). reflexivity.
  - rewrite (lastPos_absent _ _ H). destruct (lastPos "("%char tail); reflexivity.
  - rewrite (lastAt_lastPos _ _ _ Ho), (lastAt_lastPos _ _ _ Hc).
    settle (length opening <? length closing) false.
    reflexivity.
Qed.

End strings_facts.

Module parser_facts.
Import utf8 strings utf8_facts strings_facts.

Lemma space_startsRune s :
  unicode.IsSpace (fst (DecodeRune s)) = true -> startsRune s.
Proof.
  destruct s as [|c s]; [intros _; exact I|]. simpl.
  destruct (isCont (val c)) eqn:E; [|reflexivity].
  intro H. exfalso.
  unfold isCont, inRange in E. apply andb_true_iff in E as [E1 E2].
  apply N.leb_le in E1, E2.
  unfold DecodeRune in H.
  replace (val c <? RuneSelf)%N with false in H
    by (symmetry; apply N.ltb_ge; unfold RuneSelf; lia).
  unfold first in H.
  replace (val c <? 0xC2)%N with true in H
    by (symmetry; apply N.ltb_lt; lia).
  discriminate H.
Qed.

Lemma TrimLeftFunc_id s f :
  s = [] \/ f (fst (DecodeRune s)) = false -> TrimLeftFunc s f = s.
Proof.
  unfold TrimLeftFunc, indexFunc.
  intros [-> | H]; [reflexivity|].
  destruct s as [|c s]; [reflexivity|].
  rewrite Range_cons. cbn [indexLoop]. rewrite H. reflexivity.
Qed.

Lemma TrimSpace_infix s : infix (TrimSpace s) s.
Proof.
  unfold TrimSpace, TrimFunc, TrimRightFunc.
  eapply infix_trans; [apply infix_firstn|].
  unfold TrimLeftFunc. destruct (_ =? _)%Z; [apply infix_nil | apply infix_skipn].
Qed.

(** Every field starts with a rune that is not white space. *)
Lemma fieldsLoop_solid f : forall n s cur,
  length s = n ->
  match cur with
  | Some t => t <> [] /\ f (fst (DecodeRune (t ++ s))) = false
  | None => True
  end ->
  (forall y, f (fst (DecodeRune y)) = true -> startsRune y) ->
  forall t, In t (fieldsLoop f (Range s) cur) ->
       t <> [] /\ f (fst (DecodeRune t)) = false.
Proof.
  induction n as [n IH] using lt_wf_ind. intros s cur Hn Hcur Hf t Ht.
  destruct s as [|c s'].
  - rewrite Range_nil in Ht. simpl in Ht.
    destruct cur as [t0|]; [|contradiction].
    destruct Ht as [<- | []]. rewrite app_nil_r in Hcur. exact Hcur.
  - rewrite Range_cons in Ht. cbn [fieldsLoop] in Ht.
    pose proof (DecodeRune_width (c :: s') ltac:(congruence)) as Hw.
    set (r := fst (DecodeRune (c :: s'))) in *.
    set (w := snd (DecodeRune (c :: s'))) in *.
    simpl length in Hw.
    assert (Hlen : length (skipn (w - 1) s') < n).
    { subst n. rewrite length_skipn. simpl. lia. }
    destruct (f r) eqn:Hr.
    + assert (Hrest : forall t, In t (fieldsLoop f (Range (skipn (w - 1) s')) None) ->
                            t <> [] /\ f (fst (DecodeRune t)) = false).
      { intros t' Ht'. eapply (IH _ Hlen); eauto. exact I. }
      destruct cur as [t0|]; [|auto].
      destruct Ht as [<- | Ht]; [|auto].
      destruct Hcur as [Hne Hsp]. split; [assumption|].
      rewrite DecodeRune_app in Hsp; auto.
    + eapply (IH _ Hlen); [reflexivity | | exact Hf | exact Ht].
      assert (Hsplit : c :: s' = (c :: firstn (w - 1) s') ++ skipn (w - 1) s').
      { simpl. f_equal. symmetry. apply firstn_skipn. }
      destruct cur as [t0|].
      * destruct Hcur as [Hne Hsp]. split.
        -- destruct t0; [congruence | discriminate].
        -- rewrite <- app_assoc, <- Hsplit. exact Hsp.
      * split; [discriminate|]. rewrite <- Hsplit. exact Hr.
Qed.

Lemma Fields_solid s t : In t (Fields s) -> solid t.
Proof.
  intro H. unfold Fields, FieldsFunc in H.
  eapply (fieldsLoop_solid _ _ s None eq_refl I) in H; [exact H|].
  apply space_startsRune.
Qed.

(** Joining on a single space keeps the head of the first field. *)
Lemma Join_solid t ts : solid t -> solid (Join (t :: ts) (str " ")).
Proof.
  intros [Hne Hsp]. destruct ts as [|t' ts]; [split; assumption|].
  change (Join (t :: t' :: ts) (str " "))
    with (t ++ str " " ++ Join (t' :: ts) (str " ")).
  split.
  - destruct t; [congruence | discriminate].
  - rewrite DecodeRune_app; auto. reflexivity.
Qed.

Lemma prefix_solid pre (c : byte) rest :
  isCont (val c) = false ->
  solid (pre ++ c :: rest) -> pre = [] \/ solid pre.
Proof.
  intros Hc [_ Hsp]. destruct pre as [|d pre]; [left; reflexivity|].
  right. split; [discriminate|].
  rewrite DecodeRune_app in Hsp; auto. discriminate.
Qed.

Lemma TrimSpace_solid s :
  s = [] \/ solid s -> TrimSpace s = trimTrailingSpace s.
Proof.
  intro H. unfold TrimSpace, TrimFunc, trimTrailingSpace.
  rewrite TrimLeftFunc_id; [reflexivity|].
  destruct H as [H | [_ H]]; auto.
Qed.

(** The title computed by the loop is the title of the specification. *)
Lemma title_specTitle tail :
  tail = [] \/ solid tail ->
  (let branchStart := LastIndex tail (str "(") in
   let branchEnd := LastIndex tail (str ")") in
   if negb (branchStart =? -1)%Z && negb (branchEnd =? -1)%Z
      && (branchStart <? branchEnd)%Z
   then option_map TrimSpace (sliceTo tail branchStart)
   else Some tail) = Some (specTitle tail).
Proof.
  intro Htail. cbv zeta.
  change (str "(") with ["("%char]. change (str ")") with [")"%char].
  rewrite !LastIndex_byte. unfold specTitle.
  destruct (lastPos "("%char tail) as [i|] eqn:Hi; [|reflexivity].
  destruct (lastPos ")"%char tail) as [j|] eqn:Hj;
    [|rewrite andb_false_r; reflexivity].
  settle (Z.of_nat i =? -1)%Z false.
  settle (Z.of_nat j =? -1)%Z false.
  simpl negb. simpl andb.
  destruct (i <? j) eqn:Hij.
  - apply Nat.ltb_lt in Hij.
    settle (Z.of_nat i <? Z.of_nat j)%Z true.
    apply lastPos_Some in Hi as (pre & rest & Heq & Hlen & _).
    unfold sliceTo.
    replace ((0 <=? Z.of_nat i) && (Z.of_nat i <=? Z.of_nat (length tail)))%Z
      with true.
    2:{ symmetry. apply andb_true_iff. split; apply Z.leb_le; [lia|].
        rewrite Heq, length_app. lia. }
    simpl option_map. rewrite Nat2Z.id. f_equal.
    apply TrimSpace_solid.
    subst i. rewrite Heq, firstn_length_app.
    destruct Htail as [Htail | Htail].
    + rewrite Htail in Heq. destruct pre; discriminate.
    + rewrite Heq in Htail. eapply prefix_solid; [|exact Htail]. reflexivity.
  - apply Nat.ltb_ge in Hij.
    settle (Z.of_nat i <? Z.of_nat j)%Z false.
    reflexivity.
Qed.

Lemma skip_condition line :
  eqs line [] || HasPrefix line (str "Showing")
  || Bool.eqb (HasPrefix line (str "!")) false
  = negb (HasPrefix line (str "!")).
Proof.
  destruct line as [|c line]; [reflexivity|].
  change (str "!") with ["!"%char]. cbn [HasPrefix eqs].
  destruct (Ascii.eqb "!" c) eqn:E.
  - apply Ascii.eqb_eq in E. subst c. reflexivity.
  - simpl. apply orb_true_r.
Qed.

(** The loop body refines the outcome that the specification describes;
    in particular no index of the body is ever out of range. *)
Lemma parseLine_lineOutcome line : parseLine line = lineOutcome line.
Proof.
  unfold parseLine, lineOutcome. cbv zeta.
  rewrite skip_condition.
  set (l := TrimSpace line).
  destruct (negb (HasPrefix l (str "!"))); [reflexivity|].
  set (parts := Fields l).
  assert (Hsolid : forall t, In t parts -> solid t)
    by (intros t; apply Fields_solid).
  clearbody parts.
  destruct (length parts <? 4) eqn:Hlen.
  - apply Nat.ltb_lt in Hlen.
    settle (Z.of_nat (length parts) <? 4)%Z true.
    reflexivity.
  - apply Nat.ltb_ge in Hlen.
    settle (Z.of_nat (length parts) <? 4)%Z false.
    destruct parts as [|p0 [|p1 [|p2 rest]]]; try (simpl in Hlen; lia).
    cbn [index Z.ltb Z.compare Z.to_nat nth_error nth].
    destruct (strconv.Atoi (TrimPrefix p0 (str "!"))) as [iid|e]; [|reflexivity].
    unfold sliceFrom.
    replace ((0 <=? 2) && (2 <=? Z.of_nat (length (p0 :: p1 :: p2 :: rest))))%Z
      with true by (symmetry; apply andb_true_iff; split; apply Z.leb_le; simpl length; lia).
    change (Z.to_nat 2) with 2. cbn [skipn].
    set (tail := Join (p2 :: rest) (str " ")).
    assert (Htail : tail = [] \/ solid tail).
    { right. apply Join_solid. apply Hsolid. right; right; left; reflexivity. }
    pose proof (title_specTitle tail Htail) as Ht. cbv zeta in Ht.
    destruct (negb (LastIndex tail (str "(") =? -1)%Z
              && negb (LastIndex tail (str ")") =? -1)%Z
              && (LastIndex tail (str "(") <? LastIndex tail (str ")"))%Z).
    + destruct (sliceTo tail (LastIndex tail (str "("))); simpl in Ht;
        [|discriminate].
      injection Ht as Ht. rewrite <- Ht. reflexivity.
    + injection Ht as Ht. rewrite <- Ht. reflexivity.
Qed.

End parser_facts.

Module remote_facts.
Import utf8 strings utf8_facts strings_facts parser_facts.

Lemma TrimPrefix_infix s p : infix (TrimPrefix s p) s.
Proof.
  unfold TrimPrefix. destruct (HasPrefix s p);
    [apply infix_skipn | apply infix_refl].
Qed.

Lemma TrimSuffix_prefix s p : exists r, s = TrimSuffix s p ++ r.
Proof.
  unfold TrimSuffix. destruct (HasSuffix s p).
  - eexists. symmetry. apply firstn_skipn.
  - exists []. symmetry. apply app_nil_r.
Qed.

Lemma HasSuffix_app x p : HasSuffix (x ++ p) p = true.
Proof.
  unfold HasSuffix. rewrite length_app.
  apply andb_true_iff. split; [apply Nat.leb_le; lia|].
  replace (length x + length p - length p) with (length x + 0) by lia.
  rewrite skipn_length_app. apply eqs_refl.
Qed.

Lemma TrimSuffix_app x p : TrimSuffix (x ++ p) p = x.
Proof.
  unfold TrimSuffix. rewrite HasSuffix_app, length_app.
  replace (length x + length p - length p) with (length x) by lia.
  apply firstn_length_app.
Qed.

Lemma TrimPrefix_app p r : TrimPrefix (p ++ r) p = r.
Proof.
  unfold TrimPrefix. rewrite HasPrefix_app.
  replace (length p) with (length p + 0) by lia.
  apply skipn_length_app.
Qed.

(** Replacing one byte by another keeps every substring that avoids the
    new byte. *)
Lemma Replace_byte_infix (c d : byte) s x :
  Ascii.eqb c d = false -> ~ In d x ->
  infix x (Replace s [c] [d] 1) -> infix x s.
Proof.
  intros Hcd Hx H.
  destruct (byte_split c s) as [Hc | (a & b & -> & Ha)].
  - rewrite Replace_byte_absent in H by assumption. exact H.
  - rewrite Replace_byte_first in H;
      [|simpl; rewrite Hcd; reflexivity | assumption].
    apply infix_avoid in H as [H | H]; [| |assumption].
    + apply infix_app_l. exact H.
    + apply infix_app_r. change (c :: b) with ([c] ++ b).
      apply infix_app_r. exact H.
Qed.

(** The host segment is a piece of the remote URL as configured. *)
Lemma host_infix url host rest :
  Split (normalizeRemote url) (str "/") = host :: rest -> infix host url.
Proof.
  change (str "/") with ["/"%char]. rewrite Split_byte. intro H.
  apply splitByte_head in H as [[r Hr] Hh].
  assert (Hn : infix host (normalizeRemote url)).
  { rewrite Hr. exists [], r. reflexivity. }
  clear Hr. unfold normalizeRemote in Hn.
  assert (Hcut : forall x p, infix host (TrimSuffix x p) -> infix host x).
  { intros x p Hx. destruct (TrimSuffix_prefix x p) as [r' Hr'].
    rewrite Hr'. apply infix_app_l. exact Hx. }
  destruct (HasPrefix url (str "git@")).
  - apply Hcut in Hn.
    eapply Replace_byte_infix with (c := ":"%char) (d := "/"%char);
      [reflexivity | exact Hh |].
    eapply infix_trans; [exact Hn | apply TrimPrefix_infix].
  - destruct (HasPrefix url (str "https://")); [|exact Hn].
    apply Hcut in Hn.
    eapply infix_trans; [exact Hn | apply TrimPrefix_infix].
Qed.

Lemma segments_host_infix out host rest :
  segments out = host :: rest -> infix host out.
Proof.
  intro H. apply host_infix in H.
  eapply infix_trans; [exact H | apply TrimSpace_infix].
Qed.

(** *** Lower-casing *)

Lemma lowerByte_ascii c :
  (val (lowerByte c) <? RuneSelf)%N = true -> (val c <? RuneSelf)%N = true.
Proof.
  unfold lowerByte, inRange, RuneSelf.
  destruct ((0x41 <=? val c) && (val c <=? 0x5A))%N eqn:E; [|auto].
  intros _. apply andb_true_iff in E as [_ E]. apply N.leb_le in E.
  apply N.ltb_lt. lia.
Qed.

Lemma EncodeRune_lower table c :
  (val c <? RuneSelf)%N = true ->
  EncodeRune (unicode.ToLower table (val c)) = [lowerByte c].
Proof.
  intro H. apply N.ltb_lt in H. unfold RuneSelf in H.
  unfold unicode.ToLower, lowerByte, unicode.MaxASCII.
  settle (val c <=? 0x7F)%N true.
  destruct (inRange 0x41 0x5A (val c)) eqn:E.
  - unfold inRange in E. apply andb_true_iff in E as [_ E].
    apply N.leb_le in E. unfold EncodeRune.
    settle (val c + 0x20 <=? 0x7F)%N true.
    reflexivity.
  - unfold EncodeRune.
    settle (val c <=? 0x7F)%N true.
    unfold chr, val. rewrite ascii_N_embedding. reflexivity.
Qed.

Lemma Range_ascii_app mid : forall rest,
  isASCII mid = true ->
  Range (mid ++ rest) = map (fun c => (val c, [c])) mid ++ Range rest.
Proof.
  induction mid as [|c mid IH]; intros rest H; [reflexivity|].
  simpl in H. apply andb_true_iff in H as [Hc Hm].
  simpl app. rewrite Range_ascii by assumption.
  simpl. f_equal. apply IH. assumption.
Qed.

Lemma ascii_startsRune c s :
  (val c <? RuneSelf)%N = true -> startsRune (c :: s).
Proof.
  intro H. apply N.ltb_lt in H. unfold RuneSelf in H. simpl.
  unfold isCont, inRange. apply andb_false_iff. left. apply N.leb_gt. lia.
Qed.

(** [ToLower] lowers the ASCII letters of every ASCII stretch of its
    argument, whatever else the argument holds. *)
Lemma ToLower_fold table s p :
  isASCII p = true ->
  Contains (map lowerByte s) p = true ->
  Contains (ToLower table s) p = true.
Proof.
  intros Hp H. unfold ToLower. destruct (isASCII s); [exact H|].
  apply Contains_spec in H as (a & b & H).
  apply map_eq_app in H as (a' & mb & -> & Ha & H).
  apply map_eq_app in H as (mid & b' & -> & Hm & Hb).
  apply Contains_spec.
  assert (Hmid : isASCII mid = true).
  { subst p. clear - Hp. induction mid as [|c mid IH]; [reflexivity|].
    simpl in *. apply andb_true_iff in Hp as [H1 H2].
    apply andb_true_iff. split; [apply lowerByte_ascii; exact H1 | auto]. }
  destruct mid as [|c mid].
  { subst p. apply infix_nil. }
  unfold Map. rewrite Range_app.
  2:{ simpl in Hmid. apply andb_true_iff in Hmid as [Hc _].
      apply ascii_startsRune. exact Hc. }
  rewrite Range_ascii_app by assumption.
  rewrite !map_app, !concat_app.
  eexists _, _. f_equal. f_equal.
  subst p. clear - Hmid. induction (c :: mid) as [|e l IH]; [reflexivity|].
  simpl in Hmid. apply andb_true_iff in Hmid as [He Hl].
  cbn [map concat]. rewrite EncodeRune_lower by assumption.
  simpl. f_equal. apply IH. assumption.
Qed.

Lemma Contains_lower s p :
  map lowerByte p = p -> Contains s p = true ->
  Contains (map lowerByte s) p = true.
Proof.
  intros Hp H. apply Contains_spec in H as (a & b & ->).
  apply Contains_spec. rewrite !map_app, Hp. eexists _, _; reflexivity.
Qed.

Lemma detectPlatform_github table out :
  Contains (map lowerByte out) (str "github.com") = true ->
  detectPlatformFrom table out = (str "github", None).
Proof.
  intro H. unfold detectPlatformFrom.
  rewrite (ToLower_fold table out (str "github.com") eq_refl H). reflexivity.
Qed.

(** *** [getGitRepoDetails] by cases *)

Lemma getGitRepoDetailsFrom_short out :
  length (segments out) < 3 ->
  getGitRepoDetailsFrom out =
  Some ([], [], Some (MalformedRemoteError
                        (normalizeRemote (TrimSpace out)))).
Proof.
  unfold segments, getGitRepoDetailsFrom. intro H. cbv zeta.
  settle (Z.of_nat (length (Split (normalizeRemote (TrimSpace out))
                                   (str "/"))) <? 3)%Z true.
  reflexivity.
Qed.

Lemma getGitRepoDetailsFrom_long out host owner repo rest :
  segments out = host :: owner :: repo :: rest ->
  getGitRepoDetailsFrom out =
  if Contains host (str "github.com") then Some (owner, repo, None)
  else Some (Join (owner :: repo :: rest) (str "/"), [], None).
Proof.
  unfold segments, getGitRepoDetailsFrom. intro H. cbv zeta. rewrite H.
  settle (Z.of_nat (length (host :: owner :: repo :: rest)) <? 3)%Z false.
  cbn [index Z.ltb Z.compare Z.to_nat nth_error].
  destruct (Contains host (str "github.com")); [reflexivity|].
  unfold sliceFrom.
  replace ((0 <=? 1) && (1 <=? Z.of_nat (length (host :: owner :: repo :: rest))))%Z
    with true
    by (symmetry; apply andb_true_iff; split; apply Z.leb_le; simpl length; lia).
  reflexivity.
Qed.

Lemma segments_count out :
  length (segments out)
  = S (count_occ ascii_dec (normalizeRemote (TrimSpace out)) "/"%char).
Proof.
  unfold segments. change (str "/") with ["/"%char].
  rewrite Split_byte. apply splitByte_length.
Qed.

End remote_facts.

(** * The effects of a run *)
Module run_facts.

Lemma ensures_weaken {A} (m : M A) (P Q : A -> Prop) :
  ensures m P -> (forall a, P a -> Q a) -> ensures m Q.
Proof.
  intros Hm HPQ t. destruct (Hm t) as (new & E & F & HP).
  exists new. repeat split; auto.
Qed.

Lemma ensures_ret {A} (a : A) (Q : A -> Prop) : Q a -> ensures (ret a) Q.
Proof.
  intros HQ t. exists []. simpl. rewrite app_nil_r.
  repeat split; auto. intros a' H. inversion H; subst. exact HQ.
Qed.

Lemma ensures_panic {A} (Q : A -> Prop) : ensures panic Q.
Proof.
  intros t. exists []. simpl. rewrite app_nil_r.
  repeat split; auto. discriminate.
Qed.

Lemma ensures_exit {A} code (Q : A -> Prop) : ensures (exit code) Q.
Proof.
  intros t. exists []. simpl. rewrite app_nil_r.
  repeat split; auto. discriminate.
Qed.

Lemma ensures_emit e (Q : unit -> Prop) :
  pastListing e = false -> Q tt -> ensures (emit e) Q.
Proof.
  intros He HQ t. exists [e]. simpl. repeat split; auto.
  intros [] _. exact HQ.
Qed.

Lemma ensures_bind {A B} (m : M A) (k : A -> M B) (P : A -> Prop)
      (Q : B -> Prop) :
  ensures m P -> (forall a, P a -> ensures (k a) Q) -> ensures (bind m k) Q.
Proof.
  intros Hm Hk t. unfold bind.
  destruct (Hm t) as (n1 & E1 & F1 & HP).
  destruct (m t) as [[a | code |] t']; simpl in E1; subst t'.
  - destruct (Hk a (HP a eq_refl) (t ++ n1)) as (n2 & E2 & F2 & HQ).
    exists (n1 ++ n2). rewrite app_assoc. repeat split; auto.
    apply Forall_app; split; assumption.
  - exists n1. simpl. repeat split; auto. discriminate.
  - exists n1. simpl. repeat split; auto. discriminate.
Qed.

Lemma quietly_bind {A B} (m : M A) (k : A -> M B) (Q : B -> Prop) :
  quietly m -> (forall a, ensures (k a) Q) -> ensures (bind m k) Q.
Proof.
  intros Hm Hk. eapply ensures_bind; [exact Hm | intros a _; apply Hk].
Qed.

Lemma quietly_emit e : pastListing e = false -> quietly (emit e).
Proof. intro H. apply ensures_emit; [exact H | exact I]. Qed.

Lemma ensures_Fatalf {A} format args (Q : A -> Prop) :
  ensures (Fatalf format args) Q.
Proof.
  unfold Fatalf. apply quietly_bind.
  - apply quietly_emit; reflexivity.
  - intros _. apply ensures_exit.
Qed.

Section World.
Variable lowerTable : rune -> rune.
Variable cmdOutput :
  list Event -> gostring -> list gostring -> gostring * option error.
Variable pullRequests :
  list Event -> gostring -> gostring -> gostring ->
  list PullRequest * option error.

Lemma ensures_Output name args :
  isDiffCommand args = false -> quietly (Output cmdOutput name args).
Proof.
  intros H t. exists [Exec name args]. simpl. repeat split; auto.
Qed.

Lemma quietly_asExitError e : quietly (asExitError e).
Proof.
  destruct e; simpl; try apply ensures_panic. apply ensures_ret; exact I.
Qed.

Lemma quietly_detectPlatform : quietly (detectPlatform lowerTable cmdOutput).
Proof.
  unfold detectPlatform.
  apply quietly_bind; [apply ensures_Output; reflexivity|].
  intros [out [e|]]; apply ensures_ret; exact I.
Qed.

(** What the two readers of the remote URL do with the output of a
    successful [git config]. *)
Lemma detectPlatform_reads t out :
  cmdOutput t (str "git") [str "config"; str "--get"; str "remote.origin.url"]
  = (out, None) ->
  detectPlatform lowerTable cmdOutput t
  = (Value (detectPlatformFrom lowerTable out),
     t ++ [Exec (str "git")
                [str "config"; str "--get"; str "remote.origin.url"]]).
Proof.
  intro H. unfold detectPlatform, bind, Output. cbv beta iota.
  rewrite H. reflexivity.
Qed.

Lemma getGitRepoDetails_reads t out :
  cmdOutput t (str "git") [str "config"; str "--get"; str "remote.origin.url"]
  = (out, None) ->
  exists r, getGitRepoDetailsFrom out = Some r
    /\ getGitRepoDetails cmdOutput t
       = (Value r,
          t ++ [Exec (str "git")
                     [str "config"; str "--get"; str "remote.origin.url"]]).
Proof.
  intro H. unfold getGitRepoDetails, bind, Output. cbv beta iota.
  rewrite H. cbv beta iota.
  destruct (Nat.lt_ge_cases (length (segments out)) 3) as [Hlen | Hlen].
  - rewrite (remote_facts.getGitRepoDetailsFrom_short out Hlen).
    eexists. split; reflexivity.
  - destruct (segments out) as [|host [|owner [|repo rest]]] eqn:Hseg;
      try (simpl in Hlen; lia).
    rewrite (remote_facts.getGitRepoDetailsFrom_long _ _ _ _ _ Hseg).
    destruct (strings.Contains host (str "github.com"));
      eexists; split; reflexivity.
Qed.

Lemma quietly_getGitRepoDetails : quietly (getGitRepoDetails cmdOutput).
Proof.
  unfold getGitRepoDetails.
  apply quietly_bind; [apply ensures_Output; reflexivity|].
  intros [out [e|]]; [apply ensures_ret; exact I|].
  destruct (getGitRepoDetailsFrom out);
    [apply ensures_ret; exact I | apply ensures_panic].
Qed.

Lemma quietly_getGitHubToken : quietly (getGitHubToken cmdOutput).
Proof.
  unfold getGitHubToken.
  apply quietly_bind; [apply ensures_Output; reflexivity|].
  intros [out [e|]]; apply ensures_ret; exact I.
Qed.

Lemma quietly_parseLines lines : forall reviews,
  quietly (parseLines lines reviews).
Proof.
  induction lines as [|line rest IH]; intros reviews; simpl.
  - apply ensures_ret; exact I.
  - destruct (parseLine line); auto.
    + apply quietly_bind; [apply quietly_emit; reflexivity|].
      intros; apply IH.
    + apply ensures_panic.
Qed.

Lemma quietly_GitHub_ListReviews g :
  quietly (GitHub_ListReviews pullRequests g).
Proof.
  unfold GitHub_ListReviews.
  apply quietly_bind.
  - intros t. eexists [_]. simpl. repeat split; auto.
  - intros [prs [e|]]; apply ensures_ret; exact I.
Qed.

Lemma quietly_GitLab_ListReviews g :
  quietly (GitLab_ListReviews cmdOutput g).
Proof.
  unfold GitLab_ListReviews.
  apply quietly_bind; [apply ensures_Output; reflexivity|].
  intros [out [e|]].
  - apply quietly_bind; [apply quietly_asExitError|].
    intros [state stderr]; apply ensures_ret; exact I.
  - apply quietly_bind; [apply quietly_parseLines|].
    intros; apply ensures_ret; exact I.
Qed.

Lemma ensures_newReviewer platform :
  ensures (newReviewer cmdOutput pullRequests platform) listsQuietly.
Proof.
  unfold newReviewer.
  destruct (eqs platform (str "github")).
  { apply quietly_bind; [apply quietly_emit; reflexivity|].
    intros _. unfold NewGitHubReviewer.
    apply quietly_bind; [apply quietly_getGitHubToken|].
    intros [token [e|]]; [apply ensures_ret; exact I|].
    apply quietly_bind; [apply quietly_getGitRepoDetails|].
    intros [[owner repo] [e|]]; apply ensures_ret; [exact I|].
    apply quietly_GitHub_ListReviews. }
  destruct (eqs platform (str "gitlab")).
  { apply quietly_bind; [apply quietly_emit; reflexivity|].
    intros _. unfold NewGitLabReviewer.
    apply quietly_bind; [apply quietly_getGitRepoDetails|].
    intros [[path x] [e|]]; apply ensures_ret; [exact I|].
    apply quietly_GitLab_ListReviews. }
  apply ensures_Fatalf.
Qed.

(** The loop never panics and never exits; it appends exactly the
    Reviews of the lines that parse, in order. *)
Lemma parseLines_total lines : forall reviews t,
  fst (parseLines lines reviews t) = Value (reviews ++ reviewsOf lines).
Proof.
  induction lines as [|line rest IH]; intros reviews t; simpl.
  - rewrite app_nil_r. reflexivity.
  - pose proof (parser_facts.parseLine_lineOutcome line) as Hl.
    destruct (parseLine line) eqn:E.
    + apply IH.
    + unfold bind, emit. simpl. apply IH.
    + rewrite IH, <- app_assoc. reflexivity.
    + exfalso. unfold lineOutcome in Hl.
      repeat match type of Hl with
             | context [if ?b then _ else _] => destruct b
             | context [match ?x with inl _ => _ | inr _ => _ end] => destruct x
             end; discriminate.
Qed.

End World.

End run_facts.

Import utf8_facts strings_facts parser_facts remote_facts run_facts.


(** * The text source *)

Lemma parseLine_survivor line n :
  survives line n ->
  parseLine line = Parsed (textReview n (specTitle (tailOf line))).
Proof.
  intros (Hbang & Hlen & Hnum). rewrite parseLine_lineOutcome.
  unfold lineOutcome, tailOf. cbv zeta. rewrite Hbang. simpl negb. cbv iota.
  replace (length (strings.Fields (strings.TrimSpace line)) <? 4) with false
    by (symmetry; apply Nat.ltb_ge; exact Hlen).
  rewrite Hnum. reflexivity.
Qed.

Lemma parseLine_no_panic line : parseLine line <> LinePanic.
Proof.
  rewrite parseLine_lineOutcome. unfold lineOutcome.
  split_tests; discriminate.
Qed.

(** C1: for a line that passes the skip checks with the number n, the
    loop produces a Review whose number is n; when the joined tail has a
    last '(' and a last ')' and the ')' comes after the '(', its title is
    what precedes that '(' with its trailing white space trimmed; when a
    parenthesis is missing or the last ')' comes first, its title is the
    joined tail unchanged.  The two lines of the specification yield a
    Review with number 42 and title "Fix login bug", and one with number 7
    and title "Refactor parser". *)
Theorem parseLine_title :
  (forall line n opening closing,
      survives line n ->
      lastAt "("%char opening (tailOf line) ->
      lastAt ")"%char closing (tailOf line) ->
      length opening < length closing ->
      exists r,
        parseLine line = Parsed r
        /\ Number r = n
        /\ Title r = trimTrailingSpace opening)
  /\ (forall line n,
         survives line n ->
         ~ In "("%char (tailOf line) \/ ~ In ")"%char (tailOf line)
         \/ (exists opening closing,
                lastAt "("%char opening (tailOf line)
                /\ lastAt ")"%char closing (tailOf line)
                /\ length closing < length opening) ->
         exists r,
           parseLine line = Parsed r
           /\ Number r = n
           /\ Title r = tailOf line)
  /\ (exists r,
         parseLine (str "!42 group/repo Fix login bug (fix-login ← main)")
         = Parsed r
         /\ Number r = 42%Z
         /\ Title r = str "Fix login bug")
  /\ (exists r,
         parseLine (str "!7 group/repo Refactor parser") = Parsed r
         /\ Number r = 7%Z
         /\ Title r = str "Refactor parser").
Proof.
  split; [|split; [|split]].
  - intros line n opening closing Hs Ho Hc Hlt.
    rewrite (parseLine_survivor line n Hs).
    eexists. split; [reflexivity|]. split; [reflexivity|].
    cbn [Title textReview]. exact (specTitle_cut _ _ _ Ho Hc Hlt).
  - intros line n Hs Hplain.
    rewrite (parseLine_survivor line n Hs).
    eexists. split; [reflexivity|]. split; [reflexivity|].
    cbn [Title textReview]. exact (specTitle_keep _ Hplain).
  - eexists. split; [vm_compute; reflexivity|].
    split; vm_compute; reflexivity.
  - eexists. split; [vm_compute; reflexivity|].
    split; vm_compute; reflexivity.
Qed.

Lemma parseLine_title_witness :
  (exists r,
      parseLine (str "  !12 group/repo Add (beta) flag (feature/x)  ") = Parsed r
      /\ Number r = 12%Z
      /\ Title r = str "Add (beta) flag")
  /\ (exists r,
         parseLine (str "!13 group/repo Fix ) then ( order") = Parsed r
         /\ Number r = 13%Z
         /\ Title r = str "Fix ) then ( order").
Proof.
  destruct parseLine_title as (Hcut & Hkeep & _). split.
  - apply (Hcut (str "  !12 group/repo Add (beta) flag (feature/x)  ") 12%Z
                (str "Add (beta) flag ")
                (str "Add (beta) flag (feature/x")).
    + split; [reflexivity | split; [vm_compute; lia | reflexivity]].
    + exists (str "feature/x)"). split; [reflexivity|].
      vm_compute. intuition discriminate.
    + exists []. split; [reflexivity | intros []].
    + vm_compute. lia.
  - apply (Hkeep (str "!13 group/repo Fix ) then ( order") 13%Z).
    + split; [reflexivity | split; [vm_compute; lia | reflexivity]].
    + right. right. exists (str "Fix ) then "), (str "Fix ").
      split; [|split].
      * exists (str " order"). split; [reflexivity|].
        vm_compute. intuition discriminate.
      * exists (str " then ( order"). split; [reflexivity|].
        vm_compute. intuition discriminate.
      * vm_compute. lia.
Defined.

(** C2: the loop body never panics; a line of fewer than four tokens is
    skipped; a line whose number does not parse gives no Review; the
    listing of a text is the Reviews of its lines that parse, so that a
    malformed line in the middle of a text leaves the others as they are. *)
Theorem malformed_lines_are_skipped :
  (forall line, parseLine line <> LinePanic)
  /\ (forall line,
         length (strings.Fields (strings.TrimSpace line)) < 4 ->
         parseLine line = Skipped)
  /\ (forall line e,
         strconv.Atoi (strings.TrimPrefix
                         (nth 0 (strings.Fields (strings.TrimSpace line)) [])
                         (str "!")) = inr e ->
         forall r, parseLine line <> Parsed r)
  /\ (forall cmdOutput g t out,
         cmdOutput t (str "glab")
                   [str "mr"; str "list"; str "--repo"; projectPath g]
         = (out, None) ->
         fst (GitLab_ListReviews cmdOutput g t)
         = Value (reviewsOf (strings.Split out nl), None))
  /\ (forall a bad b,
         ~ In "010"%char bad ->
         (forall r, parseLine bad <> Parsed r) ->
         reviewsOf (strings.Split (a ++ nl ++ bad ++ nl ++ b) nl)
         = reviewsOf (strings.Split a nl) ++ reviewsOf (strings.Split b nl)).
Proof.
  split; [exact parseLine_no_panic|]. split; [|split; [|split]].
  - intros line H. rewrite parseLine_lineOutcome. unfold lineOutcome. cbv zeta.
    destruct (negb _); [reflexivity|].
    replace (length (strings.Fields (strings.TrimSpace line)) <? 4) with true
      by (symmetry; apply Nat.ltb_lt; exact H).
    reflexivity.
  - intros line e H r. rewrite parseLine_lineOutcome. unfold lineOutcome.
    cbv zeta. rewrite H.
    destruct (negb _); [discriminate|].
    destruct (_ <? _); discriminate.
  - intros cmdOutput g t out H. unfold GitLab_ListReviews, bind, Output.
    cbv beta iota. rewrite H. cbv beta iota.
    pose proof (parseLines_total (strings.Split out nl) [] (t ++ [Exec (str "glab")
                 [str "mr"; str "list"; str "--repo"; projectPath g]])) as Hp.
    destruct (parseLines _ _ _) as [o t']. cbn [fst] in Hp. subst o. reflexivity.
  - intros a bad b Hnl Hbad. unfold nl.
    rewrite !Split_byte.
    change (a ++ ["010"%char] ++ bad ++ ["010"%char] ++ b)
      with (a ++ "010"%char :: (bad ++ "010"%char :: b)).
    rewrite splitByte_app, splitByte_first by assumption.
    unfold reviewsOf. rewrite flat_map_app. f_equal. simpl.
    destruct (parseLine bad) eqn:E; try reflexivity.
    exfalso. eapply Hbad. reflexivity.
Qed.

Lemma malformed_lines_are_skipped_witness :
  parseLine (str "!9 group/repo") = Skipped
  /\ (forall r, parseLine (str "!x9 group/repo Fix it now") <> Parsed r)
  /\ reviewsOf (strings.Split
                  (str "!1 g/r First title" ++ nl ++ str "!oops g/r Broken line"
                       ++ nl ++ str "!2 g/r Second title") nl)
     = reviewsOf (strings.Split (str "!1 g/r First title") nl)
       ++ reviewsOf (strings.Split (str "!2 g/r Second title") nl).
Proof.
  destruct malformed_lines_are_skipped as (_ & Hshort & Hnum & _ & Hmid).
  split; [|split].
  - apply Hshort. vm_compute. lia.
  - apply (Hnum _ strconv.ErrSyntax). reflexivity.
  - apply Hmid.
    + vm_compute. intuition discriminate.
    + intro r. vm_compute. discriminate.
Defined.



(** * The remote URL *)

(** C3: when the normalised URL has at least three segments and the host
    segment contains "github.com", owner and repository are the second and
    third segments, and the platform detected is GitHub;
    git@github.com:acme/widgets.git gives (github, acme, widgets). *)
Theorem github_remote_owner_and_repo :
  (forall lowerTable out host owner repo rest,
      segments out = host :: owner :: repo :: rest ->
      strings.Contains host (str "github.com") = true ->
      getGitRepoDetailsFrom out = Some (owner, repo, None)
      /\ detectPlatformFrom lowerTable out = (str "github", None))
  /\ (forall lowerTable,
         detectPlatformFrom lowerTable (str "git@github.com:acme/widgets.git")
         = (str "github", None))
  /\ getGitRepoDetailsFrom (str "git@github.com:acme/widgets.git")
     = Some (str "acme", str "widgets", None).
Proof.
  split; [|split].
  - intros lowerTable out host owner repo rest Hseg Hhost. split.
    + rewrite (getGitRepoDetailsFrom_long _ _ _ _ _ Hseg), Hhost. reflexivity.
    + apply detectPlatform_github. apply Contains_lower; [reflexivity|].
      eapply Contains_infix; [|exact Hhost].
      eapply segments_host_infix. exact Hseg.
  - intro lowerTable. apply detectPlatform_github. vm_compute. reflexivity.
  - vm_compute. reflexivity.
Qed.

Lemma github_remote_owner_and_repo_witness :
  getGitRepoDetailsFrom (str "https://github.com/rocq-prover/rocq.git")
  = Some (str "rocq-prover", str "rocq", None)
  /\ detectPlatformFrom (fun r => r) (str "https://github.com/rocq-prover/rocq.git")
     = (str "github", None).
Proof.
  apply (proj1 github_remote_owner_and_repo (fun r => r)
               (str "https://github.com/rocq-prover/rocq.git")
               (str "github.com") (str "rocq-prover") (str "rocq") []);
    vm_compute; reflexivity.
Defined.

(** C4: when the normalised URL has at least three segments and the host
    segment does not contain "github.com", the segments after the host,
    joined with '/', are returned as one path and the second component is
    empty; https://gitlab.com/acme/team/widgets.git gives gitlab, the
    path acme/team/widgets and the empty string. *)
Theorem other_remote_full_path :
  (forall out host rest,
      segments out = host :: rest ->
      3 <= length (segments out) ->
      strings.Contains host (str "github.com") = false ->
      getGitRepoDetailsFrom out = Some (strings.Join rest (str "/"), [], None))
  /\ (forall lowerTable,
         detectPlatformFrom lowerTable
                            (str "https://gitlab.com/acme/team/widgets.git")
         = (str "gitlab", None))
  /\ getGitRepoDetailsFrom (str "https://gitlab.com/acme/team/widgets.git")
     = Some (str "acme/team/widgets", [], None).
Proof.
  split; [|split].
  - intros out host rest Hseg Hlen Hhost. rewrite Hseg in Hlen.
    destruct rest as [|owner [|repo rest]]; try (simpl in Hlen; lia).
    rewrite (getGitRepoDetailsFrom_long _ _ _ _ _ Hseg), Hhost. reflexivity.
  - intro lowerTable. unfold detectPlatformFrom, strings.ToLower.
    vm_compute. reflexivity.
  - vm_compute. reflexivity.
Qed.

Lemma other_remote_full_path_witness :
  getGitRepoDetailsFrom (str "git@gitlab.example.org:infra/ops/tools/deploy.git")
  = Some (str "infra/ops/tools/deploy", [], None).
Proof.
  apply (proj1 other_remote_full_path
               (str "git@gitlab.example.org:infra/ops/tools/deploy.git")
               (str "gitlab.example.org")
               [str "infra"; str "ops"; str "tools"; str "deploy"]);
    [vm_compute; reflexivity | vm_compute; lia | vm_compute; reflexivity].
Defined.

(** C5, as stated, fails: an SSH remote whose user is not "git" is left
    as it is, and is then rejected for having too few segments. *)
Lemma ssh_user_other_than_git_is_not_normalized :
  normalizeRemote (str "alice@github.com:acme/widgets.git")
  = str "alice@github.com:acme/widgets.git"
  /\ normalizeRemote (str "alice@github.com:acme/widgets.git")
     <> str "github.com/acme/widgets"
  /\ getGitRepoDetailsFrom (str "alice@github.com:acme/widgets.git")
     = Some ([], [], Some (MalformedRemoteError
                             (str "alice@github.com:acme/widgets.git"))).
Proof.
  split; [vm_compute; reflexivity|]. split; [|vm_compute; reflexivity].
  vm_compute. discriminate.
Qed.

(** C5, amended: an SSH remote git@host:owner/repo.git, for a host without
    ':', is normalised to host/owner/repo: the first ':' becomes '/', the
    prefix git@ and the suffix .git are removed. *)
Theorem ssh_git_remote_normalized host owner repo :
  ~ In ":"%char host ->
  normalizeRemote (str "git@" ++ host ++ str ":" ++ owner ++ str "/" ++ repo
                       ++ str ".git")
  = host ++ str "/" ++ owner ++ str "/" ++ repo.
Proof.
  intro Hhost. unfold normalizeRemote.
  rewrite strings_facts.HasPrefix_app.
  change (str ":" ++ owner ++ str "/" ++ repo ++ str ".git")
    with (":"%char :: (owner ++ str "/" ++ repo ++ str ".git")).
  rewrite app_assoc.
  change (str ":") with [":"%char]. change (str "/") with ["/"%char].
  rewrite Replace_byte_first.
  - rewrite <- app_assoc, TrimPrefix_app.
    rewrite !app_assoc. rewrite TrimSuffix_app. reflexivity.
  - reflexivity.
  - intro H. apply in_app_or in H as [H | H]; [|auto].
    vm_compute in H. intuition discriminate.
Qed.

Lemma ssh_git_remote_normalized_witness :
  normalizeRemote (str "git@github.com:acme/widgets.git")
  = str "github.com/acme/widgets".
Proof.
  apply (ssh_git_remote_normalized (str "github.com") (str "acme") (str "widgets")).
  vm_compute. intuition discriminate.
Defined.

(** C7: fewer than three segments give the error for a malformed remote
    and empty outputs; three or more never do. *)
Theorem malformed_remote_iff_fewer_than_three_segments out :
  (length (segments out) < 3 ->
   getGitRepoDetailsFrom out
   = Some ([], [], Some (MalformedRemoteError
                           (normalizeRemote (strings.TrimSpace out)))))
  /\ (3 <= length (segments out) ->
      exists ownerOrPath repo,
        getGitRepoDetailsFrom out = Some (ownerOrPath, repo, None)).
Proof.
  split; [apply getGitRepoDetailsFrom_short|].
  intro Hlen.
  destruct (segments out) as [|host [|owner [|repo rest]]] eqn:Hseg;
    try (simpl in Hlen; lia).
  rewrite (getGitRepoDetailsFrom_long _ _ _ _ _ Hseg).
  destruct (strings.Contains host (str "github.com")); eauto.
Qed.

Lemma malformed_remote_iff_fewer_than_three_segments_witness :
  getGitRepoDetailsFrom (str "https://gitlab.com/widgets.git")
  = Some ([], [], Some (MalformedRemoteError (str "gitlab.com/widgets")))
  /\ exists ownerOrPath repo,
      getGitRepoDetailsFrom (str "https://gitlab.com/acme/widgets.git")
      = Some (ownerOrPath, repo, None).
Proof.
  split.
  - apply (proj1 (malformed_remote_iff_fewer_than_three_segments
                    (str "https://gitlab.com/widgets.git"))).
    vm_compute. lia.
  - apply (proj2 (malformed_remote_iff_fewer_than_three_segments
                    (str "https://gitlab.com/acme/widgets.git"))).
    vm_compute. lia.
Defined.

(** C10, as stated, fails: "github.com" occurs only in mixed case in
    https://GitHub.com/widgets.git, the platform detected is GitHub, and
    [getGitRepoDetails] does not reach its branch test: the remote is
    rejected as malformed. *)
Lemma mixed_case_remote_may_be_rejected :
  onlyMixedCase (str "github.com") (str "https://GitHub.com/widgets.git") = true
  /\ (forall lowerTable,
         detectPlatformFrom lowerTable (str "https://GitHub.com/widgets.git")
         = (str "github", None))
  /\ getGitRepoDetailsFrom (str "https://GitHub.com/widgets.git")
     = Some ([], [], Some (MalformedRemoteError (str "GitHub.com/widgets")))
  /\ getGitRepoDetailsFrom (str "https://GitHub.com/widgets.git")
     <> Some (strings.Join (skipn 1 (segments (str "https://GitHub.com/widgets.git")))
                           (str "/"), [], None).
Proof.
  split; [vm_compute; reflexivity|]. split; [|split].
  - intro lowerTable. apply detectPlatform_github. vm_compute. reflexivity.
  - vm_compute. reflexivity.
  - vm_compute. discriminate.
Qed.

(** C10, amended: when "github.com" occurs in the remote URL only in mixed
    case and the normalised URL has at least three segments, the platform
    detected is GitHub, while [getGitRepoDetails] returns the segments
    after the host joined with '/' and an empty repository name. *)
Theorem mixed_case_remote_mismatch lowerTable out :
  onlyMixedCase (str "github.com") out = true ->
  3 <= length (segments out) ->
  detectPlatformFrom lowerTable out = (str "github", None)
  /\ getGitRepoDetailsFrom out
     = Some (strings.Join (skipn 1 (segments out)) (str "/"), [], None).
Proof.
  unfold onlyMixedCase. intros H Hlen.
  apply andb_true_iff in H as [Hfold Hexact].
  apply negb_true_iff in Hexact.
  split; [apply detectPlatform_github; exact Hfold|].
  destruct (segments out) as [|host [|owner [|repo rest]]] eqn:Hseg;
    try (simpl in Hlen; lia).
  rewrite (getGitRepoDetailsFrom_long _ _ _ _ _ Hseg).
  destruct (strings.Contains host (str "github.com")) eqn:Hhost; [|reflexivity].
  exfalso.
  assert (strings.Contains out (str "github.com") = true); [|congruence].
  eapply Contains_infix; [|exact Hhost].
  eapply segments_host_infix. exact Hseg.
Qed.

Lemma mixed_case_remote_mismatch_witness :
  detectPlatformFrom (fun r => r) (str "https://GitHub.com/acme/widgets.git")
  = (str "github", None)
  /\ getGitRepoDetailsFrom (str "https://GitHub.com/acme/widgets.git")
     = Some (str "acme/widgets", [], None).
Proof.
  apply (mixed_case_remote_mismatch (fun r => r)
           (str "https://GitHub.com/acme/widgets.git"));
    [vm_compute; reflexivity | vm_compute; lia].
Defined.


(** * Fetching the diff *)

Section Diff.
Variable cmdOutput :
  list Event -> gostring -> list gostring -> gostring * option error.

(** A diff command that succeeds: its output is returned as it is. *)
Lemma getDiffWith_verbatim tool kind n repoPath t out :
  cmdOutput t tool (diffArgs kind n repoPath) = (out, None) ->
  getDiffWith cmdOutput tool kind n repoPath t
  = (Value (out, None), t ++ [Exec tool (diffArgs kind n repoPath)]).
Proof.
  intro H. unfold getDiffWith, bind, Output. cbv beta iota.
  rewrite H. reflexivity.
Qed.

(** A diff command that exits with a failure status: an error is
    returned whose text ends with the standard error of the process. *)
Lemma getDiffWith_exit_error tool kind n repoPath t out state stderr :
  cmdOutput t tool (diffArgs kind n repoPath)
  = (out, Some (ExitError state stderr)) ->
  exists text,
    getDiffWith cmdOutput tool kind n repoPath t
    = (Value ([], Some (Wrapf (text ++ str "Stderr: " ++ stderr)
                              (ExitError state stderr))),
       t ++ [Exec tool (diffArgs kind n repoPath)]).
Proof.
  intro H. unfold getDiffWith, bind, Output. cbv beta iota.
  rewrite H. cbv beta iota.
  unfold asExitError, ret. cbv beta iota.
  eexists. rewrite !app_assoc. reflexivity.
Qed.
End Diff.

(** C6, where the code departs from it: when the diff command cannot be
    started, [cmd.Output()] returns an error that is not an
    [exec.ExitError], and both [GetDiff] methods panic on their type
    assertion instead of returning an error. *)
Theorem GetDiff_panics_when_command_cannot_start :
  forall msg pullRequests gh gl reviewNumber repoPath t,
    let cmdOutput := fun _ _ _ => ([], Some (StartError msg)) in
    fst (GetDiff (GitHub cmdOutput pullRequests gh) reviewNumber repoPath t)
    = Panicked
    /\ fst (GetDiff (GitLab cmdOutput gl) reviewNumber repoPath t) = Panicked.
Proof.
  intros. split; reflexivity.
Qed.

(** * An empty listing *)

Section Run.
Variable lowerTable : rune -> rune.
Variable cmdOutput :
  list Event -> gostring -> list gostring -> gostring * option error.
Variable pullRequests :
  list Event -> gostring -> gostring -> gostring ->
  list PullRequest * option error.
Variable promptRun : list Event -> list gostring -> Z * option error.
Variable Sprintf : gostring -> list operand -> gostring.
Variables templateHead templateTail : gostring.

(** C8: when the platform is detected, the reviewer is built and its
    listing succeeds with no Review, [main] prints the notice and
    returns; the run has no selection, no diff command and no printed
    prompt. *)
Theorem empty_listing_ends_the_run platform reviewer t1 t2 t3 :
  detectPlatform lowerTable cmdOutput startTrace = (Value (platform, None), t1) ->
  newReviewer cmdOutput pullRequests platform t1
  = (Value (reviewer, None), t2) ->
  method reviewer ListReviews t2 = (Value ([], None), t3) ->
  main lowerTable cmdOutput pullRequests promptRun Sprintf
       templateHead templateTail []
  = (Value tt, t3 ++ [emptyNotice])
  /\ Forall (fun e => pastListing e = false) (t3 ++ [emptyNotice]).
Proof.
  intros H1 H2 H3. split.
  - unfold main. unfold bind at 1. unfold emit at 1. cbn [app].
    fold startTrace. unfold bind at 1. rewrite H1.
    unfold bind at 1. rewrite H2.
    unfold bind at 1. rewrite H3.
    reflexivity.
  - destruct (quietly_detectPlatform lowerTable cmdOutput startTrace)
      as (n1 & E1 & F1 & _).
    rewrite H1 in E1. simpl in E1.
    destruct (ensures_newReviewer cmdOutput pullRequests platform t1)
      as (n2 & E2 & F2 & Q2).
    rewrite H2 in E2, Q2. simpl in E2. specialize (Q2 _ eq_refl).
    unfold listsQuietly in Q2. simpl in Q2.
    destruct reviewer as [r|]; [|discriminate H3].
    destruct (Q2 t2) as (n3 & E3 & F3 & _).
    simpl in H3. rewrite H3 in E3. simpl in E3.
    subst t3 t2 t1.
    repeat (apply Forall_app; split); auto.
Qed.
End Run.

Lemma empty_listing_ends_the_run_witness :
  demoMain [] = (Value tt, demoTrace)
  /\ Forall (fun e => pastListing e = false) demoTrace.
Proof.
  apply (empty_listing_ends_the_run
           (fun r => r) demoCmdOutput demoPullRequests demoPromptRun
           (fun format _ => format) [] []
           (str "gitlab")
           (Some (GitLab demoCmdOutput {| projectPath := str "acme/team/widgets" |}))
           (snd (detectPlatform (fun r => r) demoCmdOutput startTrace))
           (snd (newReviewer demoCmdOutput demoPullRequests (str "gitlab")
                   (snd (detectPlatform (fun r => r) demoCmdOutput startTrace))))
           (snd (GitLab_ListReviews demoCmdOutput
                   {| projectPath := str "acme/team/widgets" |}
                   (snd (newReviewer demoCmdOutput demoPullRequests (str "gitlab")
                           (snd (detectPlatform (fun r => r) demoCmdOutput startTrace)))))));
    vm_compute; reflexivity.
Defined.


(** * More on the text source *)
Module listing_facts.
Import utf8 strings.

(** ** Trimming on the right *)

(** A white-space rune decoded backwards is the rune that its bytes decode
    to forwards. *)
Lemma DecodeLastRune_space p r size :
  DecodeLastRune p = (r, size) -> unicode.IsSpace r = true ->
  1 <= size <= length p
  /\ DecodeRune (skipn (length p - size) p) = (r, size).
Proof.
  intros H Hsp.
  assert (Hne : p <> []).
  { intros ->. cbv in H. inversion H; subst. discriminate Hsp. }
  pose proof (DecodeLastRune_width p Hne) as Hw. rewrite H in Hw. simpl in Hw.
  split; [exact Hw|].
  unfold DecodeLastRune in H.
  destruct (rev p) as [|c before] eqn:Hrev.
  - inversion H; subst. discriminate Hsp.
  - assert (Hp : p = rev before ++ [c]).
    { rewrite <- (rev_involutive p), Hrev. reflexivity. }
    destruct (val c <? RuneSelf)%N eqn:Hc.
    + inversion H; subst r size.
      rewrite Hp at 2. rewrite Hp at 1. rewrite length_app. simpl length.
      replace (length (rev before) + 1 - 1) with (length (rev before) + 0) by lia.
      rewrite skipn_length_app. simpl skipn.
      unfold DecodeRune. rewrite Hc. reflexivity.
    + destruct (DecodeRune (skipn (length p - lastWindow before) p))
        as [r' size'] eqn:Hd.
      destruct (size' =? lastWindow before) eqn:E.
      * apply Nat.eqb_eq in E. injection H as -> ->.
        rewrite <- E in Hd. exact Hd.
      * inversion H; subst. discriminate Hsp.
Qed.

Lemma lastIndexLoop_range s f truth fuel : forall i,
  i <= length s ->
  lastIndexLoop fuel s i f truth = (-1)%Z
  \/ (0 <= lastIndexLoop fuel s i f truth < Z.of_nat i)%Z.
Proof.
  induction fuel as [|fuel IH]; intros i Hi; [left; reflexivity|].
  cbn [lastIndexLoop]. destruct (i =? 0) eqn:E; [left; reflexivity|].
  apply Nat.eqb_neq in E.
  assert (Hne : firstn i s <> []).
  { destruct s; [simpl in Hi; lia|]. destruct i; [lia | discriminate]. }
  pose proof (DecodeLastRune_width _ Hne) as Hw.
  destruct (DecodeLastRune (firstn i s)) as [r size]. simpl in Hw.
  destruct (Bool.eqb (f r) truth).
  - right. lia.
  - destruct (IH (i - size)) as [H | H]; [lia | left; exact H | right; lia].
Qed.

(** When the backward loop finds no rune that is not white space, the
    string it looked at is empty or starts with white space. *)
Lemma lastIndexLoop_all_space s fuel : forall i,
  i <= fuel -> i <= length s ->
  lastIndexLoop fuel s i unicode.IsSpace false = (-1)%Z ->
  firstn i s = [] \/ unicode.IsSpace (fst (DecodeRune (firstn i s))) = true.
Proof.
  induction fuel as [|fuel IH]; intros i Hf Hs H.
  - left. replace i with 0 by lia. reflexivity.
  - cbn [lastIndexLoop] in H. destruct (i =? 0) eqn:E.
    + apply Nat.eqb_eq in E. subst i. left; reflexivity.
    + destruct (DecodeLastRune (firstn i s)) as [r size] eqn:Hd.
      destruct (unicode.IsSpace r) eqn:Hsp; simpl in H; [|lia].
      destruct (DecodeLastRune_space _ _ _ Hd Hsp) as [Hw Henc].
      rewrite length_firstn, Nat.min_l in Hw, Henc by exact Hs.
      right.
      assert (Hcut : firstn i s
                     = firstn (i - size) s ++ skipn (i - size) (firstn i s)).
      { rewrite <- (firstn_skipn (i - size) (firstn i s)) at 1.
        rewrite firstn_firstn, Nat.min_l by lia. reflexivity. }
      assert (Hstart : startsRune (skipn (i - size) (firstn i s))).
      { apply space_startsRune. rewrite Henc. exact Hsp. }
      destruct (IH (i - size)) as [Hnil | Hhead]; [lia | lia | exact H | |].
      * rewrite Hcut, Hnil. simpl. rewrite Henc. exact Hsp.
      * rewrite Hcut. rewrite DecodeRune_app; [exact Hhead | | exact Hstart].
        intro Hnil. rewrite Hnil in Hhead. discriminate Hhead.
Qed.

(** Trimming on the right leaves something of a string that starts with a
    rune that is not white space. *)
Lemma trimTrailingSpace_solid s : solid s -> trimTrailingSpace s <> [].
Proof.
  intros [Hne Hhead]. unfold trimTrailingSpace, TrimRightFunc, lastIndexFunc.
  destruct (lastIndexLoop_range s unicode.IsSpace false (length s) (length s)
                                (Nat.le_refl _)) as [H | H].
  - apply lastIndexLoop_all_space in H; [|lia|lia].
    rewrite firstn_all in H. destruct H as [H | H]; congruence.
  - set (i := lastIndexLoop (length s) s (length s) unicode.IsSpace false) in *.
    assert (Hskip : skipn (Z.to_nat i) s <> []).
    { intro Hnil. apply (f_equal (@length byte)) in Hnil.
      rewrite length_skipn in Hnil. simpl in Hnil. lia. }
    pose proof (DecodeRune_width _ Hskip) as Hw.
    destruct ((0 <=? i)%Z && (RuneSelf <=? val (nth (Z.to_nat i) s zero))%N).
    + intro Hnil. apply (f_equal (@length byte)) in Hnil.
      rewrite length_firstn in Hnil. simpl in Hnil. lia.
    + intro Hnil. apply (f_equal (@length byte)) in Hnil.
      rewrite length_firstn in Hnil. simpl in Hnil. lia.
Qed.

Lemma trimTrailingSpace_prefix s : exists k, trimTrailingSpace s = firstn k s.
Proof. unfold trimTrailingSpace, TrimRightFunc. eexists. reflexivity. Qed.

(** ** The joined tail *)

Lemma tailOf_solid line n : survives line n -> solid (tailOf line).
Proof.
  intros (_ & Hlen & _). unfold tailOf.
  pose proof (Fields_solid (TrimSpace line)) as Hs.
  destruct (Fields (TrimSpace line)) as [|p0 [|p1 [|p2 rest]]];
    try (simpl in Hlen; lia).
  apply Join_solid. apply Hs. right; right; left; reflexivity.
Qed.

Lemma In_lastAt (c : byte) (s : gostring) :
  In c s -> exists pre, lastAt c pre s.
Proof.
  induction s as [|d s IH]; [intros []|]. intro H.
  destruct (in_dec ascii_dec c s) as [Hin | Hout].
  - destruct (IH Hin) as (pre & rest & -> & Hrest).
    exists (d :: pre), rest. split; [reflexivity | exact Hrest].
  - destruct H as [-> | H]; [|contradiction].
    exists [], s. split; [reflexivity | exact Hout].
Qed.

Lemma lastAt_In (c : byte) (pre s : gostring) : lastAt c pre s -> In c s.
Proof.
  intros (rest & -> & _). apply in_or_app. right. left. reflexivity.
Qed.

Lemma specTitle_prefix tail : exists k, specTitle tail = firstn k tail.
Proof.
  unfold specTitle.
  destruct (lastPos "("%char tail) as [i|];
    [|exists (length tail); symmetry; apply firstn_all].
  destruct (lastPos ")"%char tail) as [j|];
    [|exists (length tail); symmetry; apply firstn_all].
  destruct (i <? j); [|exists (length tail); symmetry; apply firstn_all].
  destruct (trimTrailingSpace_prefix (firstn i tail)) as [k Hk].
  exists (Nat.min k i). rewrite Hk. apply firstn_firstn.
Qed.

Lemma specTitle_empty tail :
  solid tail ->
  (specTitle tail = [] <-> lastAt "("%char [] tail /\ In ")"%char tail).
Proof.
  intros Hsolid. split.
  - unfold specTitle. intro H.
    destruct (lastPos "("%char tail) as [i|] eqn:Hi;
      [|destruct Hsolid; congruence].
    destruct (lastPos ")"%char tail) as [j|] eqn:Hj;
      [|destruct Hsolid; congruence].
    destruct (i <? j); [|destruct Hsolid; congruence].
    apply lastPos_Some in Hi as (pre & rest & Heq & Hlen & Hrest).
    apply lastPos_Some in Hj as (pre' & rest' & Heq' & _ & _).
    assert (Hpre : pre = []).
    { subst i. rewrite Heq, firstn_length_app in H.
      rewrite Heq in Hsolid.
      destruct (prefix_solid pre "("%char rest eq_refl Hsolid) as [Hp | Hp];
        [exact Hp|].
      exfalso. exact (trimTrailingSpace_solid _ Hp H). }
    subst pre. split.
    + exists rest. split; assumption.
    + rewrite Heq'. apply in_or_app. right. left. reflexivity.
  - intros [Ho Hin]. destruct (In_lastAt _ _ Hin) as [closing Hc].
    rewrite (specTitle_cut tail [] closing Ho Hc); [reflexivity|].
    destruct Ho as (rest & Ho & _). destruct Hc as (rest' & Hc & _).
    rewrite Ho in Hc. destruct closing; [discriminate Hc | simpl; lia].
Qed.

(** ** The outcome of a line, case by case *)

Lemma lineOutcome_Parsed line r :
  lineOutcome line = Parsed r <->
  exists n, survives line n /\ r = textReview n (specTitle (tailOf line)).
Proof.
  unfold lineOutcome, survives, tailOf. cbv zeta.
  destruct (HasPrefix (TrimSpace line) (str "!")); simpl negb; cbv iota.
  2:{ split; [discriminate | intros (n & (H & _) & _); discriminate]. }
  destruct (length (Fields (TrimSpace line)) <? 4) eqn:Hlen.
  { apply Nat.ltb_lt in Hlen.
    split; [discriminate | intros (n & (_ & H & _) & _); lia]. }
  apply Nat.ltb_ge in Hlen.
  destruct (strconv.Atoi _) as [iid|e].
  - split.
    + intro H. inversion H. exists iid. repeat split; auto.
    + intros (n & (_ & _ & H) & ->). inversion H. reflexivity.
  - split; [discriminate | intros (n & (_ & _ & H) & _); discriminate].
Qed.

End listing_facts.

Import listing_facts.


(** * The text source, line by line *)

(** X1: every line of the listing falls in exactly one of three classes.
    It is skipped without a word exactly when, trimmed, it does not start
    with '!' or has fewer than four fields; it is warned about exactly
    when it starts with '!', has at least four fields and its first field
    without the '!' is no number, and the warning then carries the trimmed
    line and the text that failed to parse; it gives a Review in every
    other case, and the Review then has the number that the first field
    parses as, the title reconstructed from the joined tail, and an empty
    body, author and diff URL.  A short line is skipped before its number
    is looked at. *)
Theorem parseLine_classes line :
  let trimmed := strings.TrimSpace line in
  let fields := strings.Fields trimmed in
  let num := strings.TrimPrefix (nth 0 fields []) (str "!") in
  (parseLine line = Skipped <->
   strings.HasPrefix trimmed (str "!") = false \/ length fields < 4)
  /\ (forall l e,
         parseLine line = Warned l e <->
         strings.HasPrefix trimmed (str "!") = true /\ 4 <= length fields
         /\ l = trimmed
         /\ exists reason, strconv.Atoi num = inr reason /\ e = NumError num reason)
  /\ (forall r,
         parseLine line = Parsed r <->
         exists n, survives line n
                   /\ r = textReview n (specTitle (tailOf line)))
  /\ (forall r,
         parseLine line = Parsed r ->
         survives line (Number r)
         /\ Title r = specTitle (tailOf line)
         /\ Body r = [] /\ AuthorLogin r = [] /\ AuthorName r = []
         /\ DiffURL r = []).
Proof.
  cbv zeta. rewrite parseLine_lineOutcome.
  split; [|split; [|split; [intro r; apply lineOutcome_Parsed|]]].
  3:{ intros r H. apply lineOutcome_Parsed in H as (n & Hs & ->).
      cbn [Number Title Body AuthorLogin AuthorName DiffURL textReview].
      repeat split; try reflexivity; apply Hs. }
  - unfold lineOutcome. cbv zeta.
    destruct (strings.HasPrefix (strings.TrimSpace line) (str "!"));
      simpl negb; cbv iota.
    2:{ split; [intros _; left; reflexivity | reflexivity]. }
    destruct (length (strings.Fields (strings.TrimSpace line)) <? 4) eqn:Hlen.
    { apply Nat.ltb_lt in Hlen. split; [intros _; right; exact Hlen | reflexivity]. }
    apply Nat.ltb_ge in Hlen.
    destruct (strconv.Atoi _);
      (split; [discriminate | intros [H | H]; [discriminate H | lia]]).
  - intros l e. unfold lineOutcome. cbv zeta.
    destruct (strings.HasPrefix (strings.TrimSpace line) (str "!"));
      simpl negb; cbv iota.
    2:{ split; [discriminate | intros (H & _); discriminate H]. }
    destruct (length (strings.Fields (strings.TrimSpace line)) <? 4) eqn:Hlen.
    { apply Nat.ltb_lt in Hlen.
      split; [discriminate | intros (_ & H & _); lia]. }
    apply Nat.ltb_ge in Hlen.
    destruct (strconv.Atoi _) as [iid | reason].
    + split; [discriminate | intros (_ & _ & _ & reason & H & _); discriminate H].
    + split.
      * intro H. inversion H. repeat split; auto.
        exists reason. split; reflexivity.
      * intros (_ & _ & -> & reason' & H & ->). inversion H. reflexivity.
Qed.

(** X2: the title of a Review read from a line is always a prefix of the
    joined tail of that line, and it is empty exactly when the tail
    starts with its last '(' and has a ')' somewhere. *)
Theorem title_prefix_of_tail line r :
  parseLine line = Parsed r ->
  (exists k, Title r = firstn k (tailOf line))
  /\ (Title r = [] <->
      lastAt "("%char [] (tailOf line) /\ In ")"%char (tailOf line)).
Proof.
  rewrite parseLine_lineOutcome. intro H.
  apply lineOutcome_Parsed in H as (n & Hs & ->). simpl Title.
  split; [apply specTitle_prefix|].
  apply specTitle_empty. exact (tailOf_solid line n Hs).
Qed.

Lemma title_prefix_of_tail_witness :
  (exists k, str "Fix login bug"
             = firstn k (tailOf (str "!42 group/repo Fix login bug (fix-login)")))
  /\ (str "Fix login bug" = [] <->
      lastAt "("%char [] (tailOf (str "!42 group/repo Fix login bug (fix-login)"))
      /\ In ")"%char (tailOf (str "!42 group/repo Fix login bug (fix-login)"))).
Proof.
  apply (title_prefix_of_tail (str "!42 group/repo Fix login bug (fix-login)")
           (textReview 42 (str "Fix login bug"))).
  vm_compute. reflexivity.
Defined.


(** * The listing as a whole *)

Lemma parseLines_trace lines : forall reviews t,
  parseLines lines reviews t
  = (Value (reviews ++ reviewsOf lines), t ++ warningsOf lines).
Proof.
  induction lines as [|line rest IH]; intros reviews t.
  - simpl. unfold ret. rewrite !app_nil_r. reflexivity.
  - pose proof (parseLine_no_panic line) as Hp.
    cbn [parseLines reviewsOf warningsOf flat_map].
    destruct (parseLine line) as [|l e|r|]; [| | |congruence].
    + apply IH.
    + unfold bind, emit. rewrite IH. cbn [app].
      rewrite <- app_assoc. reflexivity.
    + rewrite IH. cbn [app]. rewrite <- app_assoc. reflexivity.
Qed.

Section Listing.
Variable cmdOutput :
  list Event -> gostring -> list gostring -> gostring * option error.

(** X3: when [glab mr list] succeeds, the listing returns the Reviews of
    the lines that parse, with no error, and what the run has done by then
    is the command followed by one warning for each line whose number did
    not parse, in the order of the lines; nothing else is logged. *)
Theorem GitLab_ListReviews_log g t out :
  cmdOutput t (str "glab") [str "mr"; str "list"; str "--repo"; projectPath g]
  = (out, None) ->
  GitLab_ListReviews cmdOutput g t
  = (Value (reviewsOf (strings.Split out nl), None),
     t ++ listCommand g :: warningsOf (strings.Split out nl)).
Proof.
  intro H. unfold GitLab_ListReviews, bind, Output. cbv beta iota.
  rewrite H. cbv beta iota. rewrite parseLines_trace.
  unfold ret. cbn [app]. rewrite <- app_assoc. reflexivity.
Qed.

(** X4: when [glab mr list] fails, its output is not parsed.  If the
    process ran and failed, the listing returns no Review and an error
    that wraps the failure and ends with the standard error of the
    process; on any other failure of the command the listing panics. *)
Theorem GitLab_ListReviews_failure g t out e :
  cmdOutput t (str "glab") [str "mr"; str "list"; str "--repo"; projectPath g]
  = (out, Some e) ->
  GitLab_ListReviews cmdOutput g t
  = (match e with
     | ExitError state stderr =>
       Value ([], Some (Wrapf (str "failed to execute `glab mr list`: "
                                   ++ state ++ nl ++ str "Stderr: " ++ stderr) e))
     | _ => Panicked
     end,
     t ++ [listCommand g]).
Proof.
  intro H. unfold GitLab_ListReviews, bind, Output. cbv beta iota.
  rewrite H. cbv beta iota. destruct e; reflexivity.
Qed.
End Listing.

Lemma GitLab_ListReviews_log_witness :
  GitLab_ListReviews
    (fun _ _ _ => (str "!1 g/r First title (a)" ++ nl ++ str "!x g/r Second title (b)",
                   None))
    {| projectPath := str "g/r" |} []
  = (Value ([textReview 1 (str "First title")], None),
     [Exec (str "glab") [str "mr"; str "list"; str "--repo"; str "g/r"];
      parseWarning (str "!x g/r Second title (b)") (NumError (str "x") strconv.ErrSyntax)]).
Proof.
  apply (GitLab_ListReviews_log
           (fun _ _ _ => (str "!1 g/r First title (a)" ++ nl
                              ++ str "!x g/r Second title (b)", None))
           {| projectPath := str "g/r" |} []
           (str "!1 g/r First title (a)" ++ nl ++ str "!x g/r Second title (b)")).
  reflexivity.
Defined.

Lemma GitLab_ListReviews_failure_witness :
  GitLab_ListReviews
    (fun _ _ _ => (str "!1 g/r First title (a)",
                   Some (ExitError (str "exit status 1") (str "not logged in"))))
    {| projectPath := str "g/r" |} []
  = (Value ([], Some (Wrapf (str "failed to execute `glab mr list`: exit status 1"
                                 ++ nl ++ str "Stderr: not logged in")
                            (ExitError (str "exit status 1") (str "not logged in")))),
     [Exec (str "glab") [str "mr"; str "list"; str "--repo"; str "g/r"]]).
Proof.
  apply (GitLab_ListReviews_failure
           (fun _ _ _ => (str "!1 g/r First title (a)",
                          Some (ExitError (str "exit status 1") (str "not logged in"))))
           {| projectPath := str "g/r" |} [] (str "!1 g/r First title (a)")
           (ExitError (str "exit status 1") (str "not logged in"))).
  reflexivity.
Defined.


(** * More on the remote URL *)
Module path_facts.
Import utf8 strings.

(** Joining what [Split] gave, with the same separator, gives the string
    back. *)
Lemma Join_splitByte (c : byte) (s : gostring) : Join (splitByte c s) [c] = s.
Proof.
  induction s as [|d s IH]; [reflexivity|].
  cbn [splitByte]. pose proof (splitByte_nonempty c s) as Hne.
  destruct (Ascii.eqb d c) eqn:E.
  - apply Ascii.eqb_eq in E. subst d.
    destruct (splitByte c s) as [|h t]; [congruence|].
    change (Join ([] :: h :: t) [c]) with (c :: Join (h :: t) [c]).
    rewrite IH. reflexivity.
  - destruct (splitByte c s) as [|h t]; [congruence|].
    destruct t as [|h' t].
    + cbn [Join] in *. rewrite IH. reflexivity.
    + change (Join ((d :: h) :: h' :: t) [c])
        with (d :: Join (h :: h' :: t) [c]).
      rewrite IH. reflexivity.
Qed.

Lemma splitByte_clean (c : byte) (s : gostring) :
  Forall (fun seg => ~ In c seg) (splitByte c s).
Proof.
  induction s as [|d s IH]; [constructor; [intros []|constructor]|].
  cbn [splitByte]. destruct (Ascii.eqb d c) eqn:E.
  - constructor; [intros []|exact IH].
  - apply Ascii.eqb_neq in E.
    destruct (splitByte c s) as [|h t]; [constructor; [|constructor]|].
    + intros [H | []]. congruence.
    + inversion IH; subst. constructor; [|assumption].
      intros [H | H]; [congruence | contradiction].
Qed.

Lemma Join_cons (e : gostring) (rest : list gostring) (sep : gostring) :
  rest <> [] -> Join (e :: rest) sep = e ++ sep ++ Join rest sep.
Proof. destruct rest; [congruence | reflexivity]. Qed.

(** The normalised remote is its host segment, a slash, and the other
    segments joined by slashes. *)
Lemma segments_reassemble out host rest :
  segments out = host :: rest -> rest <> [] ->
  normalizeRemote (TrimSpace out) = host ++ str "/" ++ Join rest (str "/").
Proof.
  unfold segments. change (str "/") with ["/"%char]. rewrite Split_byte.
  intros H Hne. rewrite <- (Join_splitByte "/"%char (normalizeRemote _)) at 1.
  rewrite H. apply Join_cons. exact Hne.
Qed.

(** ** White space around the remote *)

Lemma DecodeLastRune_ascii p c :
  (val c <? RuneSelf)%N = true -> DecodeLastRune (p ++ [c]) = (val c, 1).
Proof.
  intro H. unfold DecodeLastRune. rewrite rev_app_distr. cbn [rev app].
  rewrite H. reflexivity.
Qed.

(** Scanning backwards over single-byte white space stops at the last
    byte that is a character on its own and no white space. *)
Lemma lastIndexLoop_ink s x c : forall ws fuel i,
  firstn i s = x ++ c :: ws -> i <= length s -> i <= fuel ->
  asciiInk c = true -> forallb asciiSpace ws = true ->
  lastIndexLoop fuel s i unicode.IsSpace false = Z.of_nat (length x).
Proof.
  intros ws. induction ws as [|w ws IH] using rev_ind;
    intros fuel i Hi Hlen Hfuel Hc Hws.
  - assert (Hi' : i = S (length x)).
    { apply (f_equal (@length byte)) in Hi.
      rewrite length_firstn, length_app in Hi. simpl in Hi. lia. }
    destruct fuel as [|fuel]; [lia|]. cbn [lastIndexLoop].
    replace (i =? 0) with false by (symmetry; apply Nat.eqb_neq; lia).
    rewrite Hi. change (x ++ [c]) with (x ++ [c]).
    apply andb_true_iff in Hc as [Hc1 Hc2]. apply negb_true_iff in Hc2.
    rewrite (DecodeLastRune_ascii x c Hc1). rewrite Hc2. cbn [Bool.eqb].
    f_equal. lia.
  - assert (Hi' : i = S (length x + length ws + 1)).
    { apply (f_equal (@length byte)) in Hi.
      rewrite length_firstn, length_app in Hi. cbn [length] in Hi.
      rewrite length_app in Hi. cbn [length] in Hi. lia. }
    rewrite forallb_app in Hws. apply andb_true_iff in Hws as [Hws Hw].
    cbn [forallb] in Hw. rewrite andb_true_r in Hw.
    apply andb_true_iff in Hw as [Hw1 Hw2].
    destruct fuel as [|fuel]; [lia|]. cbn [lastIndexLoop].
    replace (i =? 0) with false by (symmetry; apply Nat.eqb_neq; lia).
    rewrite Hi.
    replace (x ++ c :: ws ++ [w]) with ((x ++ c :: ws) ++ [w])
      by (rewrite <- app_assoc; reflexivity).
    rewrite (DecodeLastRune_ascii _ w Hw1). rewrite Hw2. cbn [Bool.eqb].
    apply IH; [|lia|lia|exact Hc|exact Hws].
    replace (i - 1) with (Nat.min (i - 1) i) by lia.
    rewrite <- firstn_firstn, Hi.
    replace (x ++ c :: ws ++ [w]) with ((x ++ c :: ws) ++ [w])
      by (rewrite <- app_assoc; reflexivity).
    replace (i - 1) with (length (x ++ c :: ws))
      by (rewrite length_app; cbn [length]; lia).
    apply firstn_length_app.
Qed.

Lemma trimTrailingSpace_ink x c ws :
  asciiInk c = true -> forallb asciiSpace ws = true ->
  trimTrailingSpace (x ++ c :: ws) = x ++ [c].
Proof.
  intros Hc Hws. unfold trimTrailingSpace, TrimRightFunc, lastIndexFunc.
  rewrite (lastIndexLoop_ink (x ++ c :: ws) x c ws);
    [|apply firstn_all|lia|lia|exact Hc|exact Hws].
  rewrite Nat2Z.id.
  replace (nth (length x) (x ++ c :: ws) zero) with c
    by (rewrite app_nth2, Nat.sub_diag by lia; reflexivity).
  apply andb_true_iff in Hc as [Hc1 _].
  replace (RuneSelf <=? val c)%N with false
    by (symmetry; apply N.leb_gt; apply N.ltb_lt; exact Hc1).
  rewrite andb_false_r.
  replace (Z.to_nat (Z.of_nat (length x) + 1)) with (length (x ++ [c]))
    by (rewrite length_app; cbn [length]; lia).
  replace (x ++ c :: ws) with ((x ++ [c]) ++ ws)
    by (rewrite <- app_assoc; reflexivity).
  apply firstn_length_app.
Qed.

Lemma asciiSpace_startsRune ws :
  forallb asciiSpace ws = true -> startsRune ws.
Proof.
  destruct ws as [|w ws]; [exact (fun _ => I)|]. cbn [forallb startsRune].
  intro H. apply andb_true_iff in H as [H _].
  apply andb_true_iff in H as [H _]. apply N.ltb_lt in H.
  unfold isCont, inRange. apply andb_false_iff. left.
  apply N.leb_gt. exact H.
Qed.

(** White space after a string that starts and ends with characters that
    are no white space is all that [TrimSpace] removes. *)
Lemma TrimSpace_ink x c ws :
  solid (x ++ [c]) -> asciiInk c = true -> forallb asciiSpace ws = true ->
  TrimSpace (x ++ c :: ws) = x ++ [c].
Proof.
  intros [Hne Hhead] Hc Hws.
  rewrite TrimSpace_solid; [apply trimTrailingSpace_ink; assumption|].
  right. replace (x ++ c :: ws) with ((x ++ [c]) ++ ws)
    by (rewrite <- app_assoc; reflexivity).
  split.
  - destruct x; discriminate.
  - rewrite DecodeRune_app;
      [exact Hhead | exact Hne | apply asciiSpace_startsRune; exact Hws].
Qed.

End path_facts.

Import path_facts.


(** * The repository path *)

(** X5: on a host that is not GitHub's, nothing of the remote is lost:
    the normalised remote is the host segment, a slash, and the project
    path that [getGitRepoDetails] returns, whatever the nesting of groups
    and whatever the segments hold. *)
Theorem project_path_reassembles out host rest :
  segments out = host :: rest ->
  3 <= length (segments out) ->
  strings.Contains host (str "github.com") = false ->
  exists path,
    getGitRepoDetailsFrom out = Some (path, [], None)
    /\ normalizeRemote (strings.TrimSpace out) = host ++ str "/" ++ path.
Proof.
  intros Hseg Hlen Hhost. exists (strings.Join rest (str "/")). split.
  - destruct rest as [|owner [|repo rest]];
      try (rewrite Hseg in Hlen; simpl in Hlen; lia).
    rewrite (getGitRepoDetailsFrom_long _ _ _ _ _ Hseg), Hhost. reflexivity.
  - apply segments_reassemble; [exact Hseg|].
    intros ->. rewrite Hseg in Hlen. simpl in Hlen. lia.
Qed.

Lemma project_path_reassembles_witness :
  exists path,
    getGitRepoDetailsFrom (str "git@gitlab.com:acme//team/widgets.git" ++ nl)
    = Some (path, [], None)
    /\ normalizeRemote (strings.TrimSpace
                          (str "git@gitlab.com:acme//team/widgets.git" ++ nl))
       = str "gitlab.com" ++ str "/" ++ path.
Proof.
  apply (project_path_reassembles
           (str "git@gitlab.com:acme//team/widgets.git" ++ nl)
           (str "gitlab.com") [str "acme"; []; str "team"; str "widgets"]).
  - vm_compute. reflexivity.
  - vm_compute. lia.
  - vm_compute. reflexivity.
Defined.

Section RepoPath.
Variable cmdOutput :
  list Event -> gostring -> list gostring -> gostring * option error.
Variable pullRequests :
  list Event -> gostring -> gostring -> gostring ->
  list PullRequest * option error.

(** X6: on GitHub the owner and the repository name hold no slash, and
    the repository path of the reviewer built from them, owner/repo, is
    what follows the host in the normalised remote up to its third
    segment; segments after the third are dropped without an error. *)
Theorem github_repo_path token out host ownerSeg repoSeg extra :
  segments out = host :: ownerSeg :: repoSeg :: extra ->
  strings.Contains host (str "github.com") = true ->
  getGitRepoDetailsFrom out = Some (ownerSeg, repoSeg, None)
  /\ ~ In "/"%char ownerSeg /\ ~ In "/"%char repoSeg
  /\ normalizeRemote (strings.TrimSpace out)
     = host ++ str "/"
       ++ GetRepoPath (GitHub cmdOutput pullRequests
                         {| client := token; owner := ownerSeg; repo := repoSeg |})
       ++ match extra with
          | [] => []
          | _ :: _ => str "/" ++ strings.Join extra (str "/")
          end.
Proof.
  intros Hseg Hhost.
  split; [rewrite (getGitRepoDetailsFrom_long _ _ _ _ _ Hseg), Hhost;
          reflexivity|].
  pose proof (splitByte_clean "/"%char
                (normalizeRemote (strings.TrimSpace out))) as Hclean.
  rewrite <- Split_byte in Hclean. change ["/"%char] with (str "/") in Hclean.
  fold (segments out) in Hclean. rewrite Hseg in Hclean.
  inversion Hclean as [|? ? _ H1]; subst.
  inversion H1 as [|? ? Ho H2]; subst.
  inversion H2 as [|? ? Hr _]; subst.
  split; [exact Ho|]. split; [exact Hr|].
  rewrite (segments_reassemble out host (ownerSeg :: repoSeg :: extra) Hseg)
    by discriminate.
  cbn [GetRepoPath GitHub owner repo].
  destruct extra as [|e extra].
  - cbn [strings.Join]. rewrite app_nil_r. reflexivity.
  - rewrite !Join_cons by discriminate. rewrite <- !app_assoc. reflexivity.
Qed.
End RepoPath.

Lemma github_repo_path_witness :
  getGitRepoDetailsFrom (str "https://github.com/acme/widgets/tree/main")
  = Some (str "acme", str "widgets", None)
  /\ ~ In "/"%char (str "acme") /\ ~ In "/"%char (str "widgets")
  /\ normalizeRemote (strings.TrimSpace (str "https://github.com/acme/widgets/tree/main"))
     = str "github.com" ++ str "/"
       ++ GetRepoPath (GitHub demoCmdOutput demoPullRequests
                         {| client := str "token"; owner := str "acme";
                            repo := str "widgets" |})
       ++ str "/" ++ strings.Join [str "tree"; str "main"] (str "/").
Proof.
  apply (github_repo_path demoCmdOutput demoPullRequests (str "token")
           (str "https://github.com/acme/widgets/tree/main")
           (str "github.com") (str "acme") (str "widgets")
           [str "tree"; str "main"]).
  - vm_compute. reflexivity.
  - vm_compute. reflexivity.
Defined.

(** X7: when the platform detected is GitLab, [getGitRepoDetails] agrees:
    it never returns an owner and a repository name the GitHub way, but
    the error for a malformed remote or the full project path. *)
Theorem gitlab_detection_agrees lowerTable out :
  detectPlatformFrom lowerTable out = (str "gitlab", None) ->
  getGitRepoDetailsFrom out
  = Some ([], [], Some (MalformedRemoteError
                          (normalizeRemote (strings.TrimSpace out))))
  \/ exists host rest,
       segments out = host :: rest
       /\ getGitRepoDetailsFrom out
          = Some (strings.Join rest (str "/"), [], None).
Proof.
  intro Hd.
  assert (Hlow : strings.Contains (strings.ToLower lowerTable out)
                                  (str "github.com") = false).
  { unfold detectPlatformFrom in Hd. cbv zeta in Hd.
    destruct (strings.Contains (strings.ToLower lowerTable out)
                               (str "github.com")); [|reflexivity].
    inversion Hd. }
  destruct (Nat.lt_ge_cases (length (segments out)) 3) as [Hlen | Hlen].
  { left. apply getGitRepoDetailsFrom_short. exact Hlen. }
  right.
  destruct (segments out) as [|host [|owner [|repo rest]]] eqn:Hseg;
    try (simpl in Hlen; lia).
  exists host, (owner :: repo :: rest). split; [reflexivity|].
  rewrite (getGitRepoDetailsFrom_long _ _ _ _ _ Hseg).
  destruct (strings.Contains host (str "github.com")) eqn:Hhost; [|reflexivity].
  exfalso.
  assert (strings.Contains (strings.ToLower lowerTable out) (str "github.com")
          = true); [|congruence].
  apply ToLower_fold; [reflexivity|].
  apply Contains_lower; [reflexivity|].
  eapply Contains_infix; [|exact Hhost].
  eapply segments_host_infix. exact Hseg.
Qed.

Lemma gitlab_detection_agrees_witness :
  getGitRepoDetailsFrom (str "https://GitLab.com/acme/team/widgets.git" ++ nl)
  = Some ([], [], Some (MalformedRemoteError
                          (normalizeRemote
                             (strings.TrimSpace
                                (str "https://GitLab.com/acme/team/widgets.git" ++ nl)))))
  \/ exists host rest,
       segments (str "https://GitLab.com/acme/team/widgets.git" ++ nl) = host :: rest
       /\ getGitRepoDetailsFrom (str "https://GitLab.com/acme/team/widgets.git" ++ nl)
          = Some (strings.Join rest (str "/"), [], None).
Proof.
  apply (gitlab_detection_agrees (fun r => r)
           (str "https://GitLab.com/acme/team/widgets.git" ++ nl)).
  vm_compute. reflexivity.
Defined.

(** ** The ways of writing a remote *)

Lemma normalizeRemote_ssh host path :
  ~ In ":"%char host ->
  normalizeRemote (str "git@" ++ host ++ str ":" ++ path ++ str ".git")
  = host ++ str "/" ++ path.
Proof.
  intro Hhost. unfold normalizeRemote. rewrite HasPrefix_app.
  change (str ":" ++ path ++ str ".git") with (":"%char :: (path ++ str ".git")).
  rewrite app_assoc.
  change (str ":") with [":"%char]. change (str "/") with ["/"%char].
  rewrite Replace_byte_first.
  - rewrite <- app_assoc, TrimPrefix_app.
    rewrite !app_assoc. rewrite TrimSuffix_app. reflexivity.
  - reflexivity.
  - intro H. apply in_app_or in H as [H | H]; [|auto].
    vm_compute in H. intuition discriminate.
Qed.

Lemma normalizeRemote_https rest :
  normalizeRemote (str "https://" ++ rest ++ str ".git") = rest.
Proof.
  unfold normalizeRemote.
  change (strings.HasPrefix (str "https://" ++ rest ++ str ".git") (str "git@"))
    with false. cbv iota.
  rewrite HasPrefix_app, TrimPrefix_app. apply TrimSuffix_app.
Qed.

Lemma dot_git_ends_in_ink (x : gostring) :
  x ++ str ".git" = (x ++ str ".gi") ++ ["t"%char].
Proof. rewrite <- app_assoc. reflexivity. Qed.

Lemma TrimSpace_dot_git (c : byte) x ws :
  asciiInk c = true -> forallb asciiSpace ws = true ->
  strings.TrimSpace (c :: x ++ str ".git" ++ ws) = c :: x ++ str ".git".
Proof.
  intros Hc Hws.
  replace (c :: x ++ str ".git" ++ ws)
    with ((c :: x ++ str ".gi") ++ "t"%char :: ws)
    by (cbn [app]; rewrite <- app_assoc; reflexivity).
  rewrite TrimSpace_ink; [| |reflexivity|exact Hws].
  - cbn [app]. rewrite <- app_assoc. reflexivity.
  - split; [discriminate|].
    apply andb_true_iff in Hc as [Hc1 Hc2]. apply negb_true_iff in Hc2.
    cbn [app]. unfold utf8.DecodeRune. rewrite Hc1. exact Hc2.
Qed.

(** X8: the SSH and the HTTPS way of writing the same repository, each
    with the white space that [git config] prints after it, are read the
    same way: both normalise to host/path, so [getGitRepoDetails] returns
    the same for both. *)
Theorem ssh_and_https_agree host path ws :
  ~ In ":"%char host ->
  forallb asciiSpace ws = true ->
  normalizeRemote (strings.TrimSpace
                     (str "git@" ++ host ++ str ":" ++ path ++ str ".git" ++ ws))
  = host ++ str "/" ++ path
  /\ normalizeRemote (strings.TrimSpace
                        (str "https://" ++ host ++ str "/" ++ path
                             ++ str ".git" ++ ws))
     = host ++ str "/" ++ path
  /\ getGitRepoDetailsFrom
       (str "git@" ++ host ++ str ":" ++ path ++ str ".git" ++ ws)
     = getGitRepoDetailsFrom
         (str "https://" ++ host ++ str "/" ++ path ++ str ".git" ++ ws).
Proof.
  intros Hhost Hws.
  assert (Hssh : normalizeRemote
                   (strings.TrimSpace
                      (str "git@" ++ host ++ str ":" ++ path ++ str ".git" ++ ws))
                 = host ++ str "/" ++ path).
  { assert (E : str "git@" ++ host ++ str ":" ++ path ++ str ".git" ++ ws
                = "g"%char :: (str "it@" ++ host ++ str ":" ++ path)
                      ++ str ".git" ++ ws)
      by (cbn [app str String.list_ascii_of_string]; rewrite <- !app_assoc;
          reflexivity).
    rewrite E, TrimSpace_dot_git by (reflexivity || exact Hws).
    assert (E' : "g"%char :: (str "it@" ++ host ++ str ":" ++ path) ++ str ".git"
                 = str "git@" ++ host ++ str ":" ++ path ++ str ".git")
      by (cbn [app str String.list_ascii_of_string]; rewrite <- !app_assoc;
          reflexivity).
    exact (eq_trans (f_equal normalizeRemote E')
                    (normalizeRemote_ssh host path Hhost)). }
  assert (Hhttps : normalizeRemote
                     (strings.TrimSpace
                        (str "https://" ++ host ++ str "/" ++ path
                             ++ str ".git" ++ ws))
                   = host ++ str "/" ++ path).
  { assert (E : str "https://" ++ host ++ str "/" ++ path ++ str ".git" ++ ws
                = "h"%char :: (str "ttps://" ++ host ++ str "/" ++ path)
                      ++ str ".git" ++ ws)
      by (cbn [app str String.list_ascii_of_string]; rewrite <- !app_assoc;
          reflexivity).
    rewrite E, TrimSpace_dot_git by (reflexivity || exact Hws).
    assert (E' : "h"%char :: (str "ttps://" ++ host ++ str "/" ++ path)
                     ++ str ".git"
                 = str "https://" ++ (host ++ str "/" ++ path) ++ str ".git")
      by (cbn [app str String.list_ascii_of_string]; rewrite <- !app_assoc;
          reflexivity).
    exact (eq_trans (f_equal normalizeRemote E')
                    (normalizeRemote_https (host ++ str "/" ++ path))). }
  split; [exact Hssh|]. split; [exact Hhttps|].
  unfold getGitRepoDetailsFrom. cbv zeta. rewrite Hssh, Hhttps. reflexivity.
Qed.

Lemma ssh_and_https_agree_witness :
  normalizeRemote (strings.TrimSpace
                     (str "git@" ++ str "gitlab.com" ++ str ":" ++ str "acme/team/widgets"
                          ++ str ".git" ++ nl))
  = str "gitlab.com" ++ str "/" ++ str "acme/team/widgets"
  /\ normalizeRemote (strings.TrimSpace
                        (str "https://" ++ str "gitlab.com" ++ str "/"
                             ++ str "acme/team/widgets" ++ str ".git" ++ nl))
     = str "gitlab.com" ++ str "/" ++ str "acme/team/widgets"
  /\ getGitRepoDetailsFrom
       (str "git@" ++ str "gitlab.com" ++ str ":" ++ str "acme/team/widgets"
            ++ str ".git" ++ nl)
     = getGitRepoDetailsFrom
         (str "https://" ++ str "gitlab.com" ++ str "/" ++ str "acme/team/widgets"
              ++ str ".git" ++ nl).
Proof.
  apply (ssh_and_https_agree (str "gitlab.com") (str "acme/team/widgets") nl).
  - vm_compute. intuition discriminate.
  - vm_compute. reflexivity.
Defined.

(** X9: a remote written with another scheme, http://, ssh:// or git://,
    is not normalised: the scheme makes two segments of its own, so the
    remote is never found malformed and never taken for GitHub's, and the
    path returned is a slash followed by everything after the scheme,
    host and .git suffix included. *)
Theorem other_scheme_is_kept scheme out rest :
  In scheme [str "http"; str "ssh"; str "git"] ->
  strings.TrimSpace out = scheme ++ str "://" ++ rest ->
  getGitRepoDetailsFrom out = Some (str "/" ++ rest, [], None).
Proof.
  intros Hscheme Hout.
  pose proof (splitByte_nonempty "/"%char rest) as Hne.
  pose proof (Join_splitByte "/"%char rest) as Hjoin.
  assert (Hseg : segments out
                 = (scheme ++ str ":") :: [] :: splitByte "/"%char rest).
  { unfold segments. rewrite Hout.
    destruct Hscheme as [<- | [<- | [<- | []]]].
    all: change (normalizeRemote (?s ++ str "://" ++ rest))
           with (s ++ str "://" ++ rest).
    all: change (str "/") with ["/"%char]; rewrite Split_byte.
    all: reflexivity. }
  assert (Hhost : strings.Contains (scheme ++ str ":") (str "github.com") = false).
  { destruct Hscheme as [<- | [<- | [<- | []]]]; reflexivity. }
  destruct (splitByte "/"%char rest) as [|h t]; [congruence|].
  rewrite (getGitRepoDetailsFrom_long _ _ _ _ _ Hseg), Hhost.
  change (str "/") with ["/"%char]. rewrite <- Hjoin. reflexivity.
Qed.

Lemma other_scheme_is_kept_witness :
  getGitRepoDetailsFrom (str "http://github.com/acme/widgets.git" ++ nl)
  = Some (str "/" ++ str "github.com/acme/widgets.git", [], None).
Proof.
  apply (other_scheme_is_kept (str "http")
           (str "http://github.com/acme/widgets.git" ++ nl)
           (str "github.com/acme/widgets.git")).
  - simpl. left. reflexivity.
  - vm_compute. reflexivity.
Defined.


(** * A run from start to end *)
Module main_facts.

Lemma getGitRepoDetailsFrom_total out :
  exists a b err, getGitRepoDetailsFrom out = Some (a, b, err).
Proof.
  destruct (Nat.lt_ge_cases (length (segments out)) 3) as [Hlen | Hlen].
  - rewrite (getGitRepoDetailsFrom_short out Hlen). eauto.
  - destruct (segments out) as [|host [|owner [|repo rest]]] eqn:Hseg;
      try (simpl in Hlen; lia).
    rewrite (getGitRepoDetailsFrom_long _ _ _ _ _ Hseg).
    destruct (strings.Contains host (str "github.com")); eauto.
Qed.

Lemma detectPlatformFrom_cases lowerTable out :
  detectPlatformFrom lowerTable out = (str "github", None)
  \/ detectPlatformFrom lowerTable out = (str "gitlab", None)
  \/ detectPlatformFrom lowerTable out = ([], Some UnsupportedPlatformError).
Proof.
  unfold detectPlatformFrom. cbv zeta.
  destruct (strings.Contains _ (str "github.com")); [auto|].
  destruct (strings.Contains _ (str "gitlab.com")); auto.
Qed.

Lemma Forall_snoc {A} (P : A -> Prop) l a :
  Forall P l -> P a -> Forall P (l ++ [a]).
Proof. intros. apply Forall_app. split; [assumption | repeat constructor; assumption]. Qed.

Lemma warnings_beforeSelection lines :
  Forall (fun e => beforeSelection e = true) (warningsOf lines).
Proof.
  induction lines as [|line rest IH]; [constructor|].
  cbn [warningsOf flat_map]. apply Forall_app. split; [|exact IH].
  destruct (parseLine line); repeat constructor.
Qed.

Lemma bind_Value {A B} (m : M A) (k : A -> M B) t a t' :
  m t = (Value a, t') -> bind m k t = k a t'.
Proof. intro H. unfold bind. rewrite H. reflexivity. Qed.

Lemma bind_Exited {A B} (m : M A) (k : A -> M B) t code t' :
  m t = (Exited code, t') -> bind m k t = (Exited code, t').
Proof. intro H. unfold bind. rewrite H. reflexivity. Qed.

Lemma bind_Panicked {A B} (m : M A) (k : A -> M B) t t' :
  m t = (Panicked, t') -> bind m k t = (Panicked, t').
Proof. intro H. unfold bind. rewrite H. reflexivity. Qed.

Lemma Fatalf_runs {A} format args t :
  @Fatalf A format args t = (Exited 1, t ++ [LogFatalf format args]).
Proof. reflexivity. Qed.

Section World.
Variable lowerTable : rune -> rune.
Variable cmdOutput :
  list Event -> gostring -> list gostring -> gostring * option error.
Variable pullRequests :
  list Event -> gostring -> gostring -> gostring ->
  list PullRequest * option error.
Variable promptRun : list Event -> list gostring -> Z * option error.
Variable Sprintf : gostring -> list operand -> gostring.
Variables templateHead templateTail : gostring.

Lemma setupEvent_beforeSelection e :
  setupEvent cmdOutput e -> beforeSelection e = true.
Proof.
  intros [(text & ->) | [-> | [-> | [(g & _ & _ & ->) | [(g & x & _ & ->)
                                                        | (l & err & ->)]]]]];
    reflexivity.
Qed.


Lemma warnings_setup lines : Forall (setupEvent cmdOutput) (warningsOf lines).
Proof.
  induction lines as [|line rest IH]; [constructor|].
  cbn [warningsOf flat_map]. apply Forall_app. split; [|exact IH].
  destruct (parseLine line) as [|l err|r|]; try constructor; [|constructor].
  do 5 right. eauto.
Qed.

Lemma detectPlatform_cases t :
  exists r,
    detectPlatform lowerTable cmdOutput t = (Value r, t ++ [readRemote])
    /\ ((exists p e, r = (p, Some e))
        \/ r = (str "github", None) \/ r = (str "gitlab", None)).
Proof.
  unfold detectPlatform, bind, Output. cbv beta iota.
  destruct (cmdOutput t _ _) as [out [e|]]; cbv beta iota; unfold ret.
  - eexists. split; [reflexivity|]. left. eauto.
  - eexists. split; [reflexivity|].
    destruct (detectPlatformFrom_cases lowerTable out) as [-> | [-> | ->]];
      eauto.
Qed.

Lemma getGitRepoDetails_cases t :
  exists a b err,
    getGitRepoDetails cmdOutput t = (Value (a, b, err), t ++ [readRemote])
    /\ (err = None -> fromRemote cmdOutput a b).
Proof.
  unfold getGitRepoDetails, bind, Output. cbv beta iota.
  destruct (cmdOutput t _ _) as [out [e|]] eqn:Hc; cbv beta iota; unfold ret.
  - do 3 eexists. split; [reflexivity | discriminate].
  - destruct (getGitRepoDetailsFrom_total out) as (a & b & err & E).
    rewrite E. exists a, b, err. split; [reflexivity|].
    intros ->. exists t, out. split; assumption.
Qed.

(** Building the reviewer neither panics nor exits; it gives an error or
    the reviewer of the platform. *)
Lemma newReviewer_github t :
  exists quiet r,
    Forall (setupEvent cmdOutput) quiet
    /\ newReviewer cmdOutput pullRequests (str "github") t
       = (Value r, t ++ quiet)
    /\ ((exists x e, r = (x, Some e))
        \/ exists g, r = (Some (GitHub cmdOutput pullRequests g), None)
                     /\ fromToken cmdOutput (client g)
                     /\ fromRemote cmdOutput (owner g) (repo g)).
Proof.
  change (newReviewer cmdOutput pullRequests (str "github"))
    with (emit (ColorPrint Cyan (str "Plataforma GitHub detectada. Buscando Pull Requests...")) ;;;
          NewGitHubReviewer cmdOutput pullRequests).
  set (notice := ColorPrint Cyan (str "Plataforma GitHub detectada. Buscando Pull Requests...")).
  assert (Hn : setupEvent cmdOutput notice) by (left; eexists; reflexivity).
  assert (Ht : setupEvent cmdOutput readToken) by (right; right; left; reflexivity).
  assert (Hr : setupEvent cmdOutput readRemote) by (right; left; reflexivity).
  remember (bind (emit notice) (fun _ => NewGitHubReviewer cmdOutput pullRequests) t)
    as result eqn:Hrun.
  unfold bind at 1 in Hrun. unfold emit in Hrun. unfold NewGitHubReviewer in Hrun.
  unfold bind at 1 in Hrun. unfold getGitHubToken, bind at 1, Output in Hrun.
  destruct (cmdOutput _ (str "gh") _) as [out [e|]] eqn:Htok;
    cbv beta iota in Hrun; unfold ret at 1 in Hrun.
  - exists [notice; readToken]. eexists. split; [setup_list|].
    split; [rewrite Hrun; unfold ret; f_equal; same_trace|]. left. eauto.
  - match type of Hrun with
    | context [bind (getGitRepoDetails cmdOutput) _ ?t0] =>
      destruct (getGitRepoDetails_cases t0) as (a & b & err & E & Hfrom)
    end.
    rewrite (bind_Value _ _ _ _ _ E) in Hrun.
    exists [notice; readToken; readRemote].
    destruct err as [e|]; unfold ret in Hrun; eexists; (split; [setup_list|]).
    + split; [rewrite Hrun; f_equal; same_trace|]. left. eauto.
    + split; [rewrite Hrun; f_equal; same_trace|]. right.
      eexists. split; [reflexivity|]. split; [|exact (Hfrom eq_refl)].
      eexists _, out. split; [exact Htok | reflexivity].
Qed.

Lemma newReviewer_gitlab t :
  exists quiet r,
    Forall (setupEvent cmdOutput) quiet
    /\ newReviewer cmdOutput pullRequests (str "gitlab") t
       = (Value r, t ++ quiet)
    /\ ((exists x e, r = (x, Some e))
        \/ exists g, r = (Some (GitLab cmdOutput g), None)
                     /\ exists x, fromRemote cmdOutput (projectPath g) x).
Proof.
  change (newReviewer cmdOutput pullRequests (str "gitlab"))
    with (emit (ColorPrint Cyan (str "Plataforma GitLab detectada. Buscando Merge Requests...")) ;;;
          NewGitLabReviewer cmdOutput).
  set (notice := ColorPrint Cyan (str "Plataforma GitLab detectada. Buscando Merge Requests...")).
  assert (Hn : setupEvent cmdOutput notice) by (left; eexists; reflexivity).
  assert (Hr : setupEvent cmdOutput readRemote) by (right; left; reflexivity).
  remember (bind (emit notice) (fun _ => NewGitLabReviewer cmdOutput) t)
    as result eqn:Hrun.
  unfold bind at 1 in Hrun. unfold emit in Hrun. unfold NewGitLabReviewer in Hrun.
  match type of Hrun with
  | context [bind (getGitRepoDetails cmdOutput) _ ?t0] =>
    destruct (getGitRepoDetails_cases t0) as (a & b & err & E & Hfrom)
  end.
  rewrite (bind_Value _ _ _ _ _ E) in Hrun.
  exists [notice; readRemote].
  destruct err as [e|]; unfold ret in Hrun; eexists; (split; [setup_list|]).
  - split; [rewrite Hrun; f_equal; same_trace|]. left. eauto.
  - split; [rewrite Hrun; f_equal; same_trace|]. right.
    eexists. split; [reflexivity|]. exists b. exact (Hfrom eq_refl).
Qed.

Lemma GitHub_ListReviews_cases g t :
  exists r,
    GitHub_ListReviews pullRequests g t
    = (Value r,
       t ++ [PullRequestsList (client g) (owner g) (repo g) (str "open")])
    /\ ((exists e, r = ([], Some e))
        \/ exists prs,
             r = (map reviewOfPullRequest prs, None)
             /\ pullRequests t (client g) (owner g) (repo g) = (prs, None)).
Proof.
  unfold GitHub_ListReviews, bind. cbv beta iota.
  destruct (pullRequests t _ _ _) as [prs [e|]]; cbv beta iota; unfold ret;
    eexists; (split; [reflexivity|]); eauto.
Qed.

Lemma GitLab_ListReviews_cases g t :
  exists quiet,
    Forall (fun e => e = listCommand g \/ exists line err, e = parseWarning line err)
           quiet
    /\ ((exists r, GitLab_ListReviews cmdOutput g t = (Value r, t ++ quiet)
                   /\ ((exists e, r = ([], Some e))
                       \/ exists out,
                            r = (reviewsOf (strings.Split out nl), None)
                            /\ cmdOutput t (str "glab")
                                 [str "mr"; str "list"; str "--repo"; projectPath g]
                               = (out, None)))
        \/ (GitLab_ListReviews cmdOutput g t = (Panicked, t ++ quiet)
            /\ exists out e,
                 cmdOutput t (str "glab")
                           [str "mr"; str "list"; str "--repo"; projectPath g]
                 = (out, Some e)
                 /\ forall state stderr, e <> ExitError state stderr)).
Proof.
  remember (GitLab_ListReviews cmdOutput g t) as result eqn:Hrun.
  unfold GitLab_ListReviews, bind at 1, Output in Hrun.
  destruct (cmdOutput t _ _) as [out [e|]] eqn:E; cbv beta iota in Hrun.
  - exists [listCommand g]. split; [repeat constructor|].
    destruct e;
      try (right; split; [rewrite Hrun; reflexivity|];
           exists out; eexists; split; [reflexivity | discriminate]).
    left. eexists. split; [rewrite Hrun; reflexivity|]. left. eauto.
  - exists (listCommand g :: warningsOf (strings.Split out nl)).
    split.
    { constructor; [left; reflexivity|].
      generalize (strings.Split out nl). intro lines.
      induction lines as [|line rest IH]; [constructor|].
      cbn [warningsOf flat_map]. apply Forall_app. split; [|exact IH].
      destruct (parseLine line) as [|l err|r|]; try constructor; [|constructor].
      right. eauto. }
    left. unfold bind in Hrun. rewrite parseLines_trace in Hrun.
    unfold ret in Hrun. rewrite <- app_assoc in Hrun.
    eexists. split; [rewrite Hrun; reflexivity|]. right.
    exists out. split; reflexivity.
Qed.

(** Up to its listing, a run either ends with a fatal message, or panics
    on a listing command that could not run, or goes on with the Reviews
    listed by the reviewer of the platform detected. *)
Lemma main_prelude t :
  exists quiet,
    Forall (setupEvent cmdOutput) quiet
    /\ ((exists f args,
            In f (firstn 3 fatalFormats)
            /\ main lowerTable cmdOutput pullRequests promptRun Sprintf
                    templateHead templateTail t
               = (Exited 1, t ++ quiet ++ [LogFatalf f args]))
        \/ (main lowerTable cmdOutput pullRequests promptRun Sprintf
                 templateHead templateTail t
            = (Panicked, t ++ quiet)
            /\ exists t' g out e,
                 cmdOutput t' (str "glab")
                           [str "mr"; str "list"; str "--repo"; projectPath g]
                 = (out, Some e)
                 /\ forall state stderr, e <> ExitError state stderr)
        \/ (exists platform r tool kind reviews,
               listed cmdOutput pullRequests platform r tool kind reviews
               /\ main lowerTable cmdOutput pullRequests promptRun Sprintf
                       templateHead templateTail t
                  = afterListing promptRun Sprintf templateHead templateTail
                      platform (Some r) reviews (t ++ quiet))).
Proof.
  set (start := ColorPrint Cyan (str "Detectando plataforma...")).
  assert (Hs : setupEvent cmdOutput start) by (left; eexists; reflexivity).
  assert (Hr : setupEvent cmdOutput readRemote) by (right; left; reflexivity).
  remember (main lowerTable cmdOutput pullRequests promptRun Sprintf
                 templateHead templateTail t) as result eqn:Hrun.
  unfold main in Hrun. unfold bind at 1 in Hrun. unfold emit at 1 in Hrun.
  fold start in Hrun.
  destruct (detectPlatform_cases (t ++ [start])) as (r & E & Hcase).
  rewrite (bind_Value _ _ _ _ _ E) in Hrun.
  destruct Hcase as [(p & e & ->) | [-> | ->]].
  - rewrite Fatalf_runs in Hrun. exists [start; readRemote].
    split; [setup_list|].
    left. exists (str "Erro: %v"), [OErr e].
    split; [simpl; auto|]. rewrite Hrun; f_equal; same_trace.
  - destruct (newReviewer_github ((t ++ [start]) ++ [readRemote]))
      as (q1 & r & F1 & E1 & Hcase).
    rewrite (bind_Value _ _ _ _ _ E1) in Hrun.
    destruct Hcase as [(x & e & ->) | (g & -> & Htok & Hrem)].
    + rewrite Fatalf_runs in Hrun. exists (start :: readRemote :: q1).
      split; [setup_list|]. left. do 2 eexists.
      split; [|rewrite Hrun; f_equal; same_trace]. simpl; auto.
    + cbn [method ListReviews GitHub] in Hrun.
      destruct (GitHub_ListReviews_cases g (((t ++ [start]) ++ [readRemote]) ++ q1))
        as (r & E2 & Hcase).
      rewrite (bind_Value _ _ _ _ _ E2) in Hrun.
      exists (start :: readRemote :: q1
                    ++ [PullRequestsList (client g) (owner g) (repo g) (str "open")]).
      split.
      { setup_list. apply Forall_snoc; [exact F1|].
        do 3 right. left. exists g. auto. }
      destruct Hcase as [(e & ->) | (prs & -> & Hprs)].
      * rewrite Fatalf_runs in Hrun. left. do 2 eexists.
        split; [|rewrite Hrun; f_equal; same_trace]. simpl; auto.
      * right. right. do 5 eexists. split.
        { left. repeat (split; [reflexivity|]). exists g, prs. eexists.
          split; [reflexivity|]. split; [exact Hrem|].
          split; [exact Hprs | reflexivity]. }
        rewrite Hrun. f_equal. same_trace.
  - destruct (newReviewer_gitlab ((t ++ [start]) ++ [readRemote]))
      as (q1 & r & F1 & E1 & Hcase).
    rewrite (bind_Value _ _ _ _ _ E1) in Hrun.
    destruct Hcase as [(x & e & ->) | (g & -> & x & Hrem)].
    + rewrite Fatalf_runs in Hrun. exists (start :: readRemote :: q1).
      split; [setup_list|]. left. do 2 eexists.
      split; [|rewrite Hrun; f_equal; same_trace]. simpl; auto.
    + cbn [method ListReviews GitLab] in Hrun.
      destruct (GitLab_ListReviews_cases g (((t ++ [start]) ++ [readRemote]) ++ q1))
        as (q2 & F2 & Hcase).
      exists (start :: readRemote :: q1 ++ q2).
      split.
      { setup_list. apply Forall_app. split; [exact F1|].
        eapply Forall_impl; [|exact F2]. intros e [-> | (l & err & ->)].
        - do 4 right. left. exists g, x. auto.
        - do 5 right. eauto. }
      destruct Hcase as [(r & E2 & Hcase) | (E2 & Hfail)].
      * rewrite (bind_Value _ _ _ _ _ E2) in Hrun.
        destruct Hcase as [(e & ->) | (out & -> & Hout)].
        -- rewrite Fatalf_runs in Hrun. left. do 2 eexists.
           split; [|rewrite Hrun; f_equal; same_trace]. simpl; auto.
        -- right. right. do 5 eexists. split.
           { right. repeat (split; [reflexivity|]). exists g, out. do 2 eexists.
             split; [reflexivity|]. split; [exact Hrem|].
             split; [exact Hout | reflexivity]. }
           rewrite Hrun. f_equal. same_trace.
      * rewrite (bind_Panicked _ _ _ _ E2) in Hrun.
        right. left. split; [rewrite Hrun; f_equal; same_trace|].
        destruct Hfail as (out & e & Hc & He). eauto 6.
Qed.

(** From the listing on, with the reviewer of a platform. *)
Lemma afterListing_runs platform r tool kind reviews t :
  GetDiff r = getDiffWith cmdOutput tool kind ->
  afterListing promptRun Sprintf templateHead templateTail platform (Some r)
               reviews t
  = match reviews with
    | [] => (Value tt, t ++ [emptyNotice])
    | _ :: _ =>
      let items := map (promptItem platform) reviews in
      let asked := t ++ [selection items] in
      match promptRun t items with
      | (_, Some e) =>
        (Value tt, asked ++ [Printf (str "Prompt failed %v" ++ nl) [OErr e]])
      | (i, None) =>
        match index reviews i with
        | None => (Panicked, asked)
        | Some sel =>
          let number := if isGitHub platform then NumberGH sel else Number sel in
          let fetch := Exec tool (diffArgs kind number (GetRepoPath r)) in
          match cmdOutput asked tool (diffArgs kind number (GetRepoPath r)) with
          | (diff, None) =>
            (Value tt,
             asked ++ [fetch; promptOpens;
                       Println (generateAgentPrompt Sprintf templateHead
                                  templateTail sel diff (PlatformName r) platform);
                       promptCloses])
          | (_, Some (ExitError state stderr as e)) =>
            (Exited 1,
             asked ++ [fetch;
                       LogFatalf (str "Erro ao obter o diff: %v")
                         [OErr (Wrapf (str "failed to execute `" ++ tool ++ str " "
                                           ++ kind ++ str " diff`: " ++ state ++ nl
                                           ++ str "Stderr: " ++ stderr) e)]])
          | (_, Some _) => (Panicked, asked ++ [fetch])
          end
        end
      end
    end.
Proof.
  intro Hdiff. unfold afterListing. destruct reviews as [|r0 reviews]; [reflexivity|].
  change (Z.of_nat (length (r0 :: reviews)) =? 0)%Z with false. cbv iota zeta.
  unfold bind at 1.
  change (map (fun r1 : Review =>
                 str "#" ++ strconv.Itoa (if isGitHub platform then NumberGH r1
                                          else Number r1)
                     ++ str ": " ++ Title r1) (r0 :: reviews))
    with (map (promptItem platform) (r0 :: reviews)).
  destruct (promptRun t _) as [i [e|]]; [reflexivity|].
  destruct (index (r0 :: reviews) i) as [sel|]; [|reflexivity].
  unfold bind at 1. cbn [method]. rewrite Hdiff.
  unfold getDiffWith, bind at 1, Output.
  destruct (cmdOutput _ tool _) as [diff [e|]]; cbv beta iota.
  - destruct e; try reflexivity.
    cbv [bind asExitError ret Fatalf emit exit]. f_equal. same_trace.
  - cbv [bind ret emit]. f_equal. same_trace.
Qed.

End World.
End main_facts.

Import main_facts.


Module ending_facts.

Lemma index_in_range {A} (l : list A) (i : Z) :
  (0 <= i < Z.of_nat (length l))%Z -> exists a, index l i = Some a.
Proof.
  intros H. unfold index.
  replace (i <? 0)%Z with false by (symmetry; apply Z.ltb_ge; lia).
  destruct (nth_error l (Z.to_nat i)) as [a|] eqn:E; [eauto|].
  apply nth_error_None in E. lia.
Qed.



Section World.
Variable lowerTable : rune -> rune.
Variable cmdOutput :
  list Event -> gostring -> list gostring -> gostring * option error.
Variable pullRequests :
  list Event -> gostring -> gostring -> gostring ->
  list PullRequest * option error.
Variable promptRun : list Event -> list gostring -> Z * option error.
Variable Sprintf : gostring -> list operand -> gostring.
Variables templateHead templateTail : gostring.

(** From the listing on, case by case. *)
Lemma afterListing_cases platform r tool kind reviews t :
  GetDiff r = getDiffWith cmdOutput tool kind ->
  let result := afterListing promptRun Sprintf templateHead templateTail
                             platform (Some r) reviews t in
  let items := map (promptItem platform) reviews in
  let asked := t ++ [selection items] in
  (reviews = [] /\ result = (Value tt, t ++ [emptyNotice]))
  \/ (reviews <> []
      /\ ((exists i e,
              promptRun t items = (i, Some e)
              /\ result = (Value tt,
                           asked ++ [Printf (str "Prompt failed %v" ++ nl) [OErr e]]))
          \/ (exists i,
                 promptRun t items = (i, None) /\ index reviews i = None
                 /\ result = (Panicked, asked))
          \/ (exists i sel,
                 promptRun t items = (i, None) /\ index reviews i = Some sel
                 /\ let number := if isGitHub platform then NumberGH sel
                                  else Number sel in
                    let args := diffArgs kind number (GetRepoPath r) in
                    (exists diff,
                        cmdOutput asked tool args = (diff, None)
                        /\ result
                           = (Value tt,
                              asked ++ [Exec tool args; promptOpens;
                                        Println (generateAgentPrompt
                                                   Sprintf templateHead templateTail
                                                   sel diff (PlatformName r) platform);
                                        promptCloses]))
                    \/ (exists e,
                           result
                           = (Exited 1,
                              asked ++ [Exec tool args;
                                        LogFatalf (str "Erro ao obter o diff: %v")
                                                  [OErr e]]))
                    \/ (exists out e,
                           cmdOutput asked tool args = (out, Some e)
                           /\ (forall state stderr, e <> ExitError state stderr)
                           /\ result = (Panicked, asked ++ [Exec tool args]))))).
Proof.
  intro Hdiff. cbv zeta.
  rewrite (afterListing_runs cmdOutput promptRun Sprintf templateHead templateTail
             platform r tool kind reviews t Hdiff).
  destruct reviews as [|r0 reviews]; [left; split; reflexivity|].
  right. split; [discriminate|]. cbv zeta.
  destruct (promptRun t _) as [i [e|]] eqn:Hp; [left; eauto|].
  destruct (index (r0 :: reviews) i) as [sel|] eqn:Hi;
    [|right; left; eauto].
  right. right. exists i, sel. split; [reflexivity|]. split; [exact Hi|].
  destruct (cmdOutput _ tool _) as [diff [e|]] eqn:Hc.
  - destruct e;
      try (right; right; exists diff; eexists;
           split; [reflexivity | split; [discriminate | reflexivity]]).
    right. left. eexists. reflexivity.
  - left. exists diff. split; reflexivity.
Qed.

(** Every run, from its start to its end. *)
Lemma main_endings t :
  exists quiet,
    Forall (setupEvent cmdOutput) quiet
    /\ let result := main lowerTable cmdOutput pullRequests promptRun Sprintf
                          templateHead templateTail t in
       (exists f args,
           In f (firstn 3 fatalFormats)
           /\ result = (Exited 1, t ++ quiet ++ [LogFatalf f args]))
       \/ (result = (Panicked, t ++ quiet)
           /\ exists t' g out e,
                cmdOutput t' (str "glab")
                          [str "mr"; str "list"; str "--repo"; projectPath g]
                = (out, Some e)
                /\ forall state stderr, e <> ExitError state stderr)
       \/ exists platform r tool kind reviews,
            listed cmdOutput pullRequests platform r tool kind reviews
            /\ let items := map (promptItem platform) reviews in
               let asked := (t ++ quiet) ++ [selection items] in
               (reviews = [] /\ result = (Value tt, (t ++ quiet) ++ [emptyNotice]))
               \/ (reviews <> []
                   /\ ((exists i e,
                           promptRun (t ++ quiet) items = (i, Some e)
                           /\ result
                              = (Value tt,
                                 asked ++ [Printf (str "Prompt failed %v" ++ nl)
                                                  [OErr e]]))
                       \/ (exists i,
                              promptRun (t ++ quiet) items = (i, None)
                              /\ index reviews i = None
                              /\ result = (Panicked, asked))
                       \/ (exists i sel,
                              promptRun (t ++ quiet) items = (i, None)
                              /\ index reviews i = Some sel
                              /\ let number := if isGitHub platform
                                               then NumberGH sel else Number sel in
                                 let args := diffArgs kind number (GetRepoPath r) in
                                 (exists diff,
                                     cmdOutput asked tool args = (diff, None)
                                     /\ result
                                        = (Value tt,
                                           asked ++ [Exec tool args; promptOpens;
                                                     Println (generateAgentPrompt
                                                                Sprintf templateHead
                                                                templateTail sel diff
                                                                (PlatformName r)
                                                                platform);
                                                     promptCloses]))
                                 \/ (exists e,
                                        result
                                        = (Exited 1,
                                           asked ++ [Exec tool args;
                                                     LogFatalf
                                                       (str "Erro ao obter o diff: %v")
                                                       [OErr e]]))
                                 \/ (exists out e,
                                        cmdOutput asked tool args = (out, Some e)
                                        /\ (forall state stderr,
                                               e <> ExitError state stderr)
                                        /\ result
                                           = (Panicked, asked ++ [Exec tool args]))))).
Proof.
  destruct (main_prelude lowerTable cmdOutput pullRequests promptRun Sprintf
                         templateHead templateTail t)
    as (quiet & Hq & [H | [H | (platform & r & tool & kind & reviews & Hl & E)]]).
  - exists quiet. split; [exact Hq|]. left. exact H.
  - exists quiet. split; [exact Hq|]. right. left. exact H.
  - exists quiet. split; [exact Hq|]. right. right.
    exists platform, r, tool, kind, reviews. split; [exact Hl|].
    cbv zeta. rewrite E. apply afterListing_cases.
    destruct Hl as [(-> & -> & -> & g & prs & t' & -> & _)
                   | (-> & -> & -> & g & out & t' & x & -> & _)]; reflexivity.
Qed.

End World.
End ending_facts.

Import ending_facts.


(** * Every run *)

Section Runs.
Variable lowerTable : rune -> rune.
Variable cmdOutput :
  list Event -> gostring -> list gostring -> gostring * option error.
Variable pullRequests :
  list Event -> gostring -> gostring -> gostring ->
  list PullRequest * option error.
Variable promptRun : list Event -> list gostring -> Z * option error.
Variable Sprintf : gostring -> list operand -> gostring.
Variables templateHead templateTail : gostring.

(** X10: when every command that fails has run and exited with a failure
    status, and every selection made without error names one of the items
    offered, a run does not panic, whatever the commands print, the
    client answers and the user selects. *)
Theorem main_does_not_panic t :
  exitErrorsOnly cmdOutput ->
  selectsAnItem promptRun ->
  fst (main lowerTable cmdOutput pullRequests promptRun Sprintf
            templateHead templateTail t) <> Panicked.
Proof.
  intros Hexit Hsel.
  destruct (main_endings lowerTable cmdOutput pullRequests promptRun Sprintf
                         templateHead templateTail t)
    as (quiet & _ & H). cbv zeta in H.
  destruct H as [(f & args & _ & ->)
                | [(_ & t' & g & out & e & Hc & He)
                  | (platform & r & tool & kind & reviews & _ & H)]].
  - discriminate.
  - destruct (Hexit _ _ _ _ _ Hc) as (state & stderr & ->).
    exfalso. exact (He _ _ eq_refl).
  - destruct H as [(_ & ->) | (Hne & [(i & e & _ & ->)
                   | [(i & Hp & Hi & _)
                     | (i & sel & _ & _ & [(diff & _ & ->)
                        | [(e & ->) | (out & e & Hc & He & _)]])]])];
      try discriminate.
    + exfalso. apply Hsel in Hp.
      * rewrite length_map in Hp.
        destruct (index_in_range reviews i Hp) as [a Ha]. congruence.
      * destruct reviews; [congruence | discriminate].
    + destruct (Hexit _ _ _ _ _ Hc) as (state & stderr & ->).
      exfalso. exact (He _ _ eq_refl).
Qed.

(** X11: a run leaves through [os.Exit] only after a fatal message: the
    status is 1, the message is the last thing the run did, and it is one
    of the four messages about detecting the platform, building the
    reviewer, listing and fetching the diff. *)
Theorem main_exits_after_a_fatal_message code :
  fst (main lowerTable cmdOutput pullRequests promptRun Sprintf
            templateHead templateTail []) = Exited code ->
  code = 1%Z
  /\ exists before f args,
       snd (main lowerTable cmdOutput pullRequests promptRun Sprintf
                 templateHead templateTail [])
       = before ++ [LogFatalf f args]
       /\ In f fatalFormats.
Proof.
  destruct (main_endings lowerTable cmdOutput pullRequests promptRun Sprintf
                         templateHead templateTail [])
    as (quiet & _ & H). cbv zeta in H.
  destruct H as [(f & args & Hf & ->)
                | [(-> & _)
                  | (platform & r & tool & kind & reviews & _ & H)]].
  - intro H. inversion H. split; [reflexivity|].
    exists quiet, f, args. split; [reflexivity|].
    destruct Hf as [<- | [<- | [<- | []]]]; simpl; auto.
  - discriminate.
  - destruct H as [(_ & ->) | (Hne & [(i & e & _ & ->)
                   | [(i & _ & _ & ->)
                     | (i & sel & _ & _ & [(diff & _ & ->)
                        | [(e & ->) | (out & e & _ & _ & ->)]])]])];
      try discriminate.
    intro H. inversion H. split; [reflexivity|]. cbn [snd].
    match goal with
    | |- exists before f args, ?l ++ [?a; LogFatalf ?f0 ?a0] = _ /\ _ =>
      exists (l ++ [a]), f0, a0
    end.
    split; [same_trace|].
    simpl; auto.
Qed.


(** X13: the message of the default branch of the platform switch is
    never logged: a platform that [detectPlatform] returns without error
    is one of the two that the switch knows, so the branch is dead code. *)
Theorem unsupported_platform_is_dead_code :
  Forall (fun e => e <> unsupportedNotice)
         (snd (main lowerTable cmdOutput pullRequests promptRun Sprintf
                    templateHead templateTail [])).
Proof.
  destruct (main_endings lowerTable cmdOutput pullRequests promptRun Sprintf
                         templateHead templateTail [])
    as (quiet & Hq & H). cbv zeta in H.
  assert (Hquiet : Forall (fun e => e <> unsupportedNotice) quiet).
  { eapply Forall_impl; [|exact Hq]. intros e He ->.
    apply setupEvent_beforeSelection in He. discriminate He. }
  assert (Hother : forall es,
             forallb (fun e => match e with
                               | LogFatalf f _ => existsb (eqs f) fatalFormats
                               | _ => true
                               end) es = true ->
             Forall (fun e => e <> unsupportedNotice) (quiet ++ es)).
  { intros es Hes. apply Forall_app. split; [exact Hquiet|].
    apply Forall_forall. intros e Hin ->.
    rewrite forallb_forall in Hes. apply Hes in Hin. discriminate Hin. }
  destruct H as [(f & args & Hf & ->)
                | [(-> & _)
                  | (platform & r & tool & kind & reviews & _ & H)]].
  - cbn [snd app]. apply Hother.
    destruct Hf as [<- | [<- | [<- | []]]]; reflexivity.
  - exact Hquiet.
  - destruct H as [(_ & ->) | (Hne & [(i & e & _ & ->)
                   | [(i & _ & _ & ->)
                     | (i & sel & _ & _ & [(diff & _ & ->)
                        | [(e & ->) | (out & e & _ & _ & ->)]])]])];
      cbn [snd app]; rewrite <- ?app_assoc; apply Hother; reflexivity.
Qed.



(** X16: the GitHub client is only ever asked for the open pull requests
    of the owner and the repository that [getGitRepoDetails] read off the
    remote, with the token that [gh auth token] printed, trimmed. *)
Theorem client_request_of_a_run token owner repo state :
  In (PullRequestsList token owner repo state)
     (snd (main lowerTable cmdOutput pullRequests promptRun Sprintf
                templateHead templateTail [])) ->
  state = str "open"
  /\ fromToken cmdOutput token
  /\ fromRemote cmdOutput owner repo.
Proof.
  destruct (main_endings lowerTable cmdOutput pullRequests promptRun Sprintf
                         templateHead templateTail [])
    as (quiet & Hq & H). cbv zeta in H.
  assert (Hquiet : In (PullRequestsList token owner repo state) quiet ->
                   state = str "open"
                   /\ fromToken cmdOutput token
                   /\ fromRemote cmdOutput owner repo).
  { intro Hin. rewrite Forall_forall in Hq. apply Hq in Hin.
    destruct Hin as [(text & He) | [He | [He | [(g & Htok & Hrem & He)
                    | [(g & x & _ & He) | (l & err & He)]]]]];
      try discriminate He.
    inversion He. auto. }
  assert (Hone : forall es,
             In (PullRequestsList token owner repo state) (quiet ++ es) ->
             forallb (fun e => match e with
                               | PullRequestsList _ _ _ _ => false
                               | _ => true
                               end) es = true ->
             In (PullRequestsList token owner repo state) quiet).
  { intros es Hin Hes. apply in_app_or in Hin as [Hin | Hin]; [exact Hin|].
    rewrite forallb_forall in Hes. apply Hes in Hin. discriminate Hin. }
  destruct H as [(f & fargs & _ & E)
                | [(E & _)
                  | (platform & r & tool & kind & reviews & Hl & H)]].
  - rewrite E. cbn [snd app]. intro Hin. apply Hquiet.
    apply (Hone _ Hin). reflexivity.
  - rewrite E. cbn [snd app]. exact Hquiet.
  - destruct H as [(_ & E) | (Hne & [(i & e & _ & E)
                   | [(i & _ & _ & E)
                     | (i & sel & _ & _ & [(diff & _ & E)
                        | [(e & E) | (out & e & _ & _ & E)]])]])];
      rewrite E; cbn [snd app]; rewrite <- ?app_assoc; intro Hin;
      apply Hquiet; apply (Hone _ Hin); reflexivity.
Qed.

End Runs.


Lemma main_does_not_panic_witness : fst (hubMain []) <> Panicked.
Proof.
  apply (main_does_not_panic (fun r => r) hubCmdOutput hubPullRequests
           demoPromptRun (fun format _ => format) (str "Review: ") (str " :end") []).
  - intros t name args out e H. unfold hubCmdOutput in H.
    destruct (eqs name (str "git")); [discriminate H|].
    destruct (isDiffCommand args); discriminate H.
  - intros t items i Hne H. inversion H.
    destruct items; [congruence | simpl; lia].
Defined.

Lemma main_exits_after_a_fatal_message_witness :
  1%Z = 1%Z
  /\ exists before f args,
       snd (strandedMain []) = before ++ [LogFatalf f args]
       /\ In f fatalFormats.
Proof.
  apply (main_exits_after_a_fatal_message (fun r => r) strandedCmdOutput
           demoPullRequests demoPromptRun (fun format _ => format) [] [] 1%Z).
  vm_compute. reflexivity.
Defined.



Lemma client_request_of_a_run_witness :
  str "open" = str "open"
  /\ fromToken hubCmdOutput (str "gho_secret")
  /\ fromRemote hubCmdOutput (str "acme") (str "widgets").
Proof.
  apply (client_request_of_a_run (fun r => r) hubCmdOutput hubPullRequests
           demoPromptRun (fun format _ => format) (str "Review: ") (str " :end")
           (str "gho_secret") (str "acme") (str "widgets") (str "open")).
  vm_compute. repeat ((left; reflexivity) || right).
Defined.


(** * Numbers, printed and read *)
Module number_facts.
Import strconv.

Lemma of_uint_acc_grows l : forall acc, (acc <= Pos.of_uint_acc l acc)%positive.
Proof.
  induction l; intro acc; cbn [Pos.of_uint_acc]; try lia;
    match goal with
    | |- (_ <= Pos.of_uint_acc _ ?a)%positive => specialize (IHl a); lia
    end.
Qed.

(** Reading the digits of a decimal number, most significant first, with
    the value read so far. *)
Lemma parseUint_digits l : forall acc,
  (Z.pos (Pos.of_uint_acc l acc) <= 2 ^ 64 - 1)%Z ->
  parseUint (Z.pos acc) (str (DecimalString.NilEmpty.string_of_uint l))
  = inl (Z.pos (Pos.of_uint_acc l acc)).
Proof.
  induction l; intros acc Hmax; [reflexivity|..];
    cbn [Pos.of_uint_acc] in *;
    unfold str; cbn [DecimalString.NilEmpty.string_of_uint
                     String.list_ascii_of_string];
    fold (str (DecimalString.NilEmpty.string_of_uint l));
    cbn [parseUint];
    match goal with
    | |- context [utf8.inRange ?lo ?hi ?v] =>
      change (utf8.inRange lo hi v) with true; cbv iota
    end;
    match goal with
    | |- context [Z.of_N (val ?c - 48)] =>
      let k := eval cbv in (Z.of_N (val c - 48)) in
      change (Z.of_N (val c - 48)) with k
    end;
    match type of Hmax with
    | (Z.pos (Pos.of_uint_acc l ?a) <= _)%Z =>
      pose proof (of_uint_acc_grows l a) as Hgrow;
      match goal with
      | |- context [parseUint ?n1 _] =>
        replace n1 with (Z.pos a) by lia
      end;
      match goal with
      | |- context [(?b <? Z.pos a)%Z] =>
        replace (b <? Z.pos a)%Z with false
          by (symmetry; apply Z.ltb_ge; lia)
      end;
      apply IHl; exact Hmax
    end.
Qed.

Lemma parseUint_of_uint d :
  (Z.of_N (Pos.of_uint d) <= 2 ^ 64 - 1)%Z ->
  parseUint 0 (str (DecimalString.NilEmpty.string_of_uint d))
  = inl (Z.of_N (Pos.of_uint d)).
Proof.
  induction d; intro Hmax; [reflexivity|..];
    cbn [Pos.of_uint] in *;
    unfold str; cbn [DecimalString.NilEmpty.string_of_uint
                     String.list_ascii_of_string];
    fold (str (DecimalString.NilEmpty.string_of_uint d));
    cbn [parseUint];
    match goal with
    | |- context [utf8.inRange ?lo ?hi ?v] =>
      change (utf8.inRange lo hi v) with true; cbv iota
    end;
    match goal with
    | |- context [(?b <? ?n1)%Z] =>
      let v := eval cbv in n1 in change n1 with v;
      change (b <? v)%Z with false; cbv iota
    end;
    first [apply IHd; exact Hmax | apply parseUint_digits; exact Hmax].
Qed.

Lemma digits_nonempty p :
  exists c s,
    str (DecimalString.NilEmpty.string_of_uint (Pos.to_uint p)) = c :: s
    /\ Ascii.eqb c "-" = false /\ Ascii.eqb c "+" = false.
Proof.
  pose proof (DecimalPos.Unsigned.to_uint_nonnil p) as Hne.
  destruct (Pos.to_uint p); [congruence|..];
    unfold str; cbn [DecimalString.NilEmpty.string_of_uint
                     String.list_ascii_of_string];
    do 2 eexists; (split; [reflexivity|]); split; reflexivity.
Qed.

Lemma Itoa_pos p :
  Itoa (Z.pos p) = str (DecimalString.NilEmpty.string_of_uint (Pos.to_uint p)).
Proof.
  unfold Itoa. cbn [Z.to_int DecimalString.NilZero.string_of_int].
  pose proof (DecimalPos.Unsigned.to_uint_nonnil p) as Hne.
  unfold DecimalString.NilZero.string_of_uint.
  destruct (Pos.to_uint p); [congruence|..]; reflexivity.
Qed.

Lemma Itoa_neg p :
  Itoa (Z.neg p)
  = "-"%char :: str (DecimalString.NilEmpty.string_of_uint (Pos.to_uint p)).
Proof.
  unfold Itoa. cbn [Z.to_int DecimalString.NilZero.string_of_int].
  pose proof (DecimalPos.Unsigned.to_uint_nonnil p) as Hne.
  unfold DecimalString.NilZero.string_of_uint.
  destruct (Pos.to_uint p); [congruence|..]; reflexivity.
Qed.

Lemma parseUint_to_uint p :
  (Z.pos p <= 2 ^ 64 - 1)%Z ->
  parseUint 0 (str (DecimalString.NilEmpty.string_of_uint (Pos.to_uint p)))
  = inl (Z.pos p).
Proof.
  intro H. rewrite parseUint_of_uint; rewrite DecimalPos.Unsigned.of_to;
    [reflexivity | exact H].
Qed.

(** What is printed with the verb d reads back as the same number. *)
Lemma Atoi_Itoa n :
  (- 2 ^ 63 <= n < 2 ^ 63)%Z -> Atoi (Itoa n) = inl n.
Proof.
  intro H. destruct n as [|p|p].
  - reflexivity.
  - rewrite Itoa_pos.
    destruct (digits_nonempty p) as (c & s & E & Hm & Hp).
    pose proof (parseUint_to_uint p) as Hu. rewrite E in *.
    unfold Atoi. rewrite Hm, Hp. cbn [orb]. cbv iota zeta.
    rewrite Hu by lia. cbn [negb andb].
    replace (2 ^ (intSize - 1) <=? Z.pos p)%Z with false
      by (symmetry; apply Z.leb_gt; unfold intSize; lia).
    reflexivity.
  - rewrite Itoa_neg.
    destruct (digits_nonempty p) as (c & s & E & Hm & Hp).
    pose proof (parseUint_to_uint p) as Hu. rewrite E in *.
    unfold Atoi. change (Ascii.eqb "-" "-") with true. cbn [orb]. cbv iota zeta.
    rewrite Hu by lia. cbn [negb andb].
    replace (2 ^ (intSize - 1) <? Z.pos p)%Z with false
      by (symmetry; apply Z.ltb_ge; unfold intSize; lia).
    reflexivity.
Qed.

(** Whatever [Atoi] reads is a number of the [int] range. *)
Lemma Atoi_range s n : Atoi s = inl n -> (- 2 ^ 63 <= n < 2 ^ 63)%Z.
Proof.
  assert (Hnonneg : forall s acc un,
             (0 <= acc)%Z -> parseUint acc s = inl un -> (0 <= un)%Z).
  { clear. induction s as [|c s IH]; intros acc un Hacc H; cbn [parseUint] in H.
    - inversion H. lia.
    - destruct (utf8.inRange 48 57 (val c)); [|discriminate H].
      destruct (2 ^ 64 - 1 <? acc * 10 + Z.of_N (val c - 48))%Z;
        [discriminate H|].
      eapply IH; [|exact H]. lia. }
  unfold Atoi. destruct s as [|c s]; [discriminate|]. cbv zeta.
  destruct (if Ascii.eqb c "-" || Ascii.eqb c "+" then s else c :: s)
    as [|c' body]; [discriminate|].
  destruct (parseUint 0 (c' :: body)) as [un|e] eqn:Hu; [|discriminate].
  apply Hnonneg in Hu; [|lia].
  change (intSize - 1)%Z with 63%Z.
  destruct (Ascii.eqb c "-"); cbn [negb andb].
  - destruct (2 ^ 63 <? un)%Z eqn:E; [discriminate|].
    apply Z.ltb_ge in E. intro H. inversion H. lia.
  - destruct (2 ^ 63 <=? un)%Z eqn:E; [discriminate|].
    apply Z.leb_gt in E. intro H. inversion H. lia.
Qed.

End number_facts.

Import number_facts.


(** X17: the number of a Review read from the listing is a number of the
    [int] range, and it goes round: printed with the verb d as the third
    argument of the diff command, it reads back with [Atoi] as the same
    number, so the command is asked for the merge request that the line
    named. *)
Theorem listed_number_reads_back line r kind path :
  parseLine line = Parsed r ->
  (- 2 ^ 63 <= Number r < 2 ^ 63)%Z
  /\ exists arg,
       nth_error (diffArgs kind (Number r) path) 2 = Some arg
       /\ strconv.Atoi arg = inl (Number r).
Proof.
  rewrite parseLine_lineOutcome. intro H.
  apply lineOutcome_Parsed in H as (n & (_ & _ & Hn) & ->).
  cbn [Number textReview]. apply Atoi_range in Hn.
  split; [exact Hn|]. exists (strconv.Itoa n).
  split; [reflexivity | apply Atoi_Itoa; exact Hn].
Qed.

Lemma listed_number_reads_back_witness :
  (- 2 ^ 63 <= 42 < 2 ^ 63)%Z
  /\ exists arg,
       nth_error (diffArgs (str "mr") 42 (str "group/repo")) 2 = Some arg
       /\ strconv.Atoi arg = inl 42%Z.
Proof.
  apply (listed_number_reads_back
           (str "!42 group/repo Fix login bug (fix-login)")
           (textReview 42 (str "Fix login bug")) (str "mr") (str "group/repo")).
  vm_compute. reflexivity.
Defined.
